(** * 100x-voicebot: retrieval, canned answers, model-output parsing and
      speech-text cleaning of the serverless handlers.

    The development embeds the JavaScript handlers of the repository:
    - [Tts]         the text-to-speech handler that cleans its text
                    (second handler of the speech endpoint);
    - [ChatHF]      api/chat.js, the Hugging Face backed chat handler;
    - [ChatGemini]  the Gemini backed chat handler with scored retrieval
                    and a canned-answer table;
    - [TtsPlain], [ChatGeminiV1]  the earlier variants of the two handlers;
    - [Loader]      the cached loading of the knowledge base;
    - [App]         the query normalisation of the browser front end.

    Strings are sequences of UTF-16 code units; the model covers code units
    below 256 (Latin-1), which is the range of Rocq's [ascii]. *)

From Stdlib Require Import String Ascii List Bool Arith Lia.
From Stdlib Require Import Permutation Sorted.
Import ListNotations.
Open Scope string_scope.
Open Scope nat_scope.
Set Warnings "-register-all".

(* ================================================================= *)
(** ** JavaScript string primitives *)

Module JsString.

(** [WhiteSpace] and [LineTerminator] code units below 256, as used by
    [String.prototype.trim]: TAB, LF, VT, FF, CR, SP and NBSP. *)
Definition is_space (c : ascii) : bool :=
  let n := nat_of_ascii c in
  ((9 <=? n) && (n <=? 13)) || (n =? 32) || (n =? 160).

(** [\w] of a regular expression without the unicode flag: [A-Za-z0-9_]. *)
Definition is_word (c : ascii) : bool :=
  let n := nat_of_ascii c in
  ((65 <=? n) && (n <=? 90)) || ((97 <=? n) && (n <=? 122))
  || ((48 <=? n) && (n <=? 57)) || (n =? 95).

(** [toLowerCase] on one code unit: A-Z, and the Latin-1 capitals
    U+00C0..U+00DE except the multiplication sign U+00D7. *)
Definition lower_char (c : ascii) : ascii :=
  let n := nat_of_ascii c in
  if ((65 <=? n) && (n <=? 90))
     || ((192 <=? n) && (n <=? 222) && negb (n =? 215))
  then ascii_of_nat (n + 32) else c.

Fixpoint toLowerCase (s : string) : string :=
  match s with
  | EmptyString => EmptyString
  | String c s' => String (lower_char c) (toLowerCase s')
  end.

(** [s.includes(p)]: [p] occurs in [s] at some position. *)
Fixpoint includes (s p : string) : bool :=
  prefix p s ||
  match s with
  | EmptyString => false
  | String _ s' => includes s' p
  end.

(** [s.replace(/p/g, r)] for a literal, non-empty pattern [p]: scan from the
    left; at a match emit [r] and resume after the match.  [skip] counts the
    code units of the current match that are still to be passed over. *)
Fixpoint replace_from (p r : string) (skip : nat) (s : string) : string :=
  match s with
  | EmptyString => EmptyString
  | String c s' =>
      match skip with
      | S k => replace_from p r k s'
      | O => if prefix p s
             then (r ++ replace_from p r (pred (String.length p)) s')%string
             else String c (replace_from p r 0 s')
      end
  end.

Definition replaceAll (p r s : string) : string := replace_from p r 0 s.

Fixpoint trimStart (s : string) : string :=
  match s with
  | EmptyString => EmptyString
  | String c s' => if is_space c then trimStart s' else s
  end.

Definition is_empty (s : string) : bool :=
  match s with EmptyString => true | _ => false end.

Fixpoint trimEnd (s : string) : string :=
  match s with
  | EmptyString => EmptyString
  | String c s' =>
      let r := trimEnd s' in
      if is_space c && is_empty r then EmptyString else String c r
  end.

Definition trim (s : string) : string := trimEnd (trimStart s).

(** [s.slice(0, n)]. *)
Fixpoint slice0 (n : nat) (s : string) : string :=
  match n, s with
  | S k, String c s' => String c (slice0 k s')
  | _, _ => EmptyString
  end.

(** Every code unit of [s] satisfies [P]. *)
Fixpoint all_chars (P : ascii -> bool) (s : string) : bool :=
  match s with
  | EmptyString => true
  | String c s' => P c && all_chars P s'
  end.

(** No code unit [a] is immediately followed by [b]. *)
Fixpoint no_pair (a b : ascii) (s : string) : bool :=
  match s with
  | String c ((String d _) as s') =>
      negb (Ascii.eqb c a && Ascii.eqb d b) && no_pair a b s'
  | _ => true
  end.

Definition dquote : ascii := ascii_of_nat 34.

(** The first code unit of [s] is [d]. *)
Definition starts (d : ascii) (s : string) : bool :=
  match s with String c _ => Ascii.eqb c d | EmptyString => false end.

(** The first code unit of [s] is white space. *)
Definition starts_space (s : string) : bool :=
  match s with String c _ => is_space c | EmptyString => false end.

(** [a-z0-9_]. *)
Definition is_lower_word (c : ascii) : bool :=
  let n := nat_of_ascii c in
  ((97 <=? n) && (n <=? 122)) || ((48 <=? n) && (n <=? 57)) || (n =? 95).

(** A lowercase word character or a space: what [norm] lets through. *)
Definition is_plain (c : ascii) : bool :=
  is_lower_word c || Ascii.eqb c " ".

(** [c] is not the code unit [a]. *)
Definition not_char (a : ascii) (c : ascii) : bool := negb (Ascii.eqb c a).

(** [c.repeat(n)]. *)
Fixpoint repeat_char (c : ascii) (n : nat) : string :=
  match n with O => EmptyString | S k => String c (repeat_char c k) end.

(** A string between double quotes. *)
Definition quoted (s : string) : string :=
  String dquote (s ++ String dquote EmptyString)%string.

End JsString.
Import JsString.

(* ================================================================= *)
(** ** Speech endpoint with text cleaning *)

Module Tts.

Definition pat_fence_json : string := "```json".
Definition pat_fence : string := "```".
Definition pat_open : string := "{".
Definition pat_close : string := "}".
Definition pat_answer : string :=
  String dquote ("answer" ++ String dquote ":")%string.
Definition pat_confidence : string := "Confidence: low".
Definition pat_backslash_n : string := "\n".

(** The cleaning chain of the handler, in source order; the last
    replacement puts a space where a backslash followed by n stood. *)
Definition clean (text : string) : string :=
  trim
    (replaceAll pat_backslash_n " "
      (replaceAll pat_confidence EmptyString
        (replaceAll pat_answer EmptyString
          (replaceAll pat_close EmptyString
            (replaceAll pat_open EmptyString
              (replaceAll pat_fence EmptyString
                (replaceAll pat_fence_json EmptyString text))))))).

End Tts.

(* ================================================================= *)
(** ** JavaScript values and HTTP plumbing shared by the handlers *)

(** A parsed JSON number, represented by the two observations the handlers
    make of it: whether it is zero (falsy) and its [String()] rendering. *)
Record number := { num_is_zero : bool; num_text : string }.

(** A parsed JSON value; an object lists its properties, each key once. *)
Inductive json :=
| JNull
| JBool (b : bool)
| JNum (n : number)
| JStr (s : string)
| JArr (elems : list json)
| JObj (fields : list (string * json)).

(** A possibly [undefined] value. *)
Definition jsval := option json.

(** [ToBoolean]. *)
Definition truthy (v : jsval) : bool :=
  match v with
  | None | Some JNull => false
  | Some (JBool b) => b
  | Some (JNum n) => negb (num_is_zero n)
  | Some (JStr s) => negb (is_empty s)
  | Some (JArr _) | Some (JObj _) => true
  end.

Fixpoint assoc (k : string) (fields : list (string * json)) : jsval :=
  match fields with
  | [] => None
  | (k', v) :: rest => if String.eqb k k' then Some v else assoc k rest
  end.

(** [String(v)] for a defined value; [None] when it throws a [TypeError].
    An array joins the renderings of its elements with a comma, [null]
    elements counting as the empty string.  An object is rendered by the
    inherited [toString] as [[object Object]]; an own property named
    [toString] hides that method with a value that cannot be called, the
    inherited [valueOf] returns the object itself, and the conversion
    throws. *)
Fixpoint to_String (v : json) : option string :=
  match v with
  | JNull => Some "null"
  | JBool true => Some "true"
  | JBool false => Some "false"
  | JNum n => Some (num_text n)
  | JStr s => Some s
  | JArr l =>
      (fix join (l : list json) : option string :=
         match l with
         | [] => Some EmptyString
         | x :: l' =>
             match (match x with
                    | JNull => Some EmptyString
                    | _ => to_String x
                    end) with
             | None => None
             | Some e =>
                 match l' with
                 | [] => Some e
                 | _ :: _ =>
                     match join l' with
                     | Some r => Some (e ++ "," ++ r)%string
                     | None => None
                     end
                 end
             end
         end) l
  | JObj fields =>
      match assoc "toString" fields with
      | Some _ => None
      | None => Some "[object Object]"
      end
  end.

(** Property read [v.k] for the own data properties of a parsed value:
    [None] is the [TypeError] of reading from [null]; primitives and arrays
    have none of the properties the handlers read. *)
Definition get_prop (v : json) (k : string) : option jsval :=
  match v with
  | JNull => None
  | JObj fields => Some (assoc k fields)
  | _ => Some None
  end.

Record request := { method : string; body_text : jsval }.

Inductive body :=
| ErrorBody (error : string) (details : option string)
| Envelope (answer : string) (confidence : string) (sources : list json)
| Audio (bytes : list Byte.byte).

Record response := { status : nat; payload : body }.

(** What a handler does: answer at once, or make its one outbound call
    and answer from the reply. *)
Inductive step (Call Reply : Type) :=
| Respond (r : response)
| Upstream (c : Call) (k : Reply -> response).
Arguments Respond {Call Reply} r.
Arguments Upstream {Call Reply} c k.

(** An environment variable: unset, or set to a string. *)
Definition envvar := option string.
Definition env_set (v : envvar) : bool :=
  match v with Some s => negb (is_empty s) | None => false end.
Definition env_or (v : envvar) (dflt : string) : string :=
  match v with Some s => if is_empty s then dflt else s | None => dflt end.

Definition json_error (code : nat) (msg : string) : response :=
  {| status := code; payload := ErrorBody msg None |}.
Definition json_error_details (code : nat) (msg details : string) : response :=
  {| status := code; payload := ErrorBody msg (Some details) |}.

Definition nl : ascii := ascii_of_nat 10.
Definition nlnl : string := String nl (String nl EmptyString).

Fixpoint join (sep : string) (l : list string) : string :=
  match l with
  | [] => EmptyString
  | [x] => x
  | x :: l' => (x ++ sep ++ join sep l')%string
  end.

(** [[...new Set(l)]]: first occurrences, in order, under the equality
    [same] (identity for objects, value equality for strings). *)
Fixpoint dedup {A : Type} (same : A -> A -> bool) (seen l : list A) : list A :=
  match l with
  | [] => []
  | x :: l' =>
      if existsb (same x) seen then dedup same seen l'
      else x :: dedup same (x :: seen) l'
  end.
Definition new_Set {A : Type} (same : A -> A -> bool) (l : list A) : list A :=
  dedup same [] l.

(* ================================================================= *)
(** ** Speech handler *)

Module TtsHandler.
Import Tts.

Record call := { url : string; api_key : string; text : string }.

Inductive reply :=
| FetchThrows (err : string)
| FetchNotOk (upstream_body : string)
| FetchOk (audio : list Byte.byte).

Definition voiceId : string := "m8ysB8KEJV5BeYQnOtWN".

Definition finish (r : reply) : response :=
  match r with
  | FetchThrows err => json_error_details 500 "internal server error" err
  | FetchNotOk b => json_error_details 502 "TTS failed" b
  | FetchOk audio => {| status := 200; payload := Audio audio |}
  end.

(** [handler(req, res)] of the cleaning variant; [ELEVENLABS_API_KEY] is
    the environment variable it reads. *)
Definition handler (ELEVENLABS_API_KEY : envvar) (req : request)
  : step call reply :=
  if negb (String.eqb (method req) "POST")
  then Respond (json_error 405 "Method not allowed")
  else if negb (truthy (body_text req))
  then Respond (json_error 400 "No text provided")
  else match body_text req with
  | Some (JStr text0) =>
      if is_empty (trim text0)
      then Respond (json_error 400 "No text provided")
      else
        let text1 := clean text0 in
        if negb (env_set ELEVENLABS_API_KEY)
        then Respond (json_error 500 "ELEVENLABS_API_KEY not set")
        else Upstream
               {| url := "https://api.elevenlabs.io/v1/text-to-speech/" ++ voiceId;
                  api_key := env_or ELEVENLABS_API_KEY EmptyString;
                  text := text1 |}
               finish
  | _ =>
      (* a truthy non-string has no [trim] method *)
      Respond (json_error_details 500 "internal server error"
                 "TypeError: text.trim is not a function")
  end.

End TtsHandler.

(* ================================================================= *)
(** ** Knowledge base and retrieval primitives *)

Record snippet := { id : string; text : string }.

(** Identity of the objects [buildContext] handles: the [i]-th element of
    the knowledge-base array, or the fresh object that the spread
    [{ ...item, score }] creates from it. *)
Inductive ref :=
| KbRef (i : nat)
| CopyRef (i : nat).

Definition same_ref (a b : ref) : bool :=
  match a, b with
  | KbRef i, KbRef j => i =? j
  | CopyRef i, CopyRef j => i =? j
  | _, _ => false
  end.

Record obj := { addr : ref; snip : snippet; score : option nat }.

Definition same_obj (a b : obj) : bool := same_ref (addr a) (addr b).

(** The objects of the array [kb], in order, from index [i] on. *)
Fixpoint objects_from (i : nat) (kb : list snippet) : list obj :=
  match kb with
  | [] => []
  | s :: kb' =>
      {| addr := KbRef i; snip := s; score := None |} :: objects_from (S i) kb'
  end.
Definition objects (kb : list snippet) : list obj := objects_from 0 kb.

(** [{ ...item, score }]. *)
Definition with_score (item : obj) (n : nat) : obj :=
  {| addr := match addr item with KbRef i | CopyRef i => CopyRef i end;
     snip := snip item;
     score := Some n |}.

Definition score_of (o : obj) : nat :=
  match score o with Some n => n | None => 0 end.

(** [a] ranks no lower than [b]. *)
Definition by_score (a b : obj) : Prop := score_of b <= score_of a.

(** [q.split(/\W+/).filter(Boolean)]: the maximal runs of word characters;
    [cur] is the run being read. *)
Fixpoint words_from (cur : string) (s : string) : list string :=
  match s with
  | EmptyString => if is_empty cur then [] else [cur]
  | String c s' =>
      if is_word c then words_from (cur ++ String c EmptyString) s'
      else if is_empty cur then words_from EmptyString s'
      else cur :: words_from EmptyString s'
  end.

(** [Array.from(new Set(q.split(/\W+/).filter(Boolean)))] for
    [q = (query || '').toLowerCase()]. *)
Definition tokens (query : string) : list string :=
  new_Set String.eqb (words_from EmptyString (toLowerCase query)).

(** The test both retrieval loops apply to a token and a lowercased text. *)
Definition tok_hits (t tok : string) : bool :=
  (2 <? String.length tok) && includes t tok.

(** [kb.find(k => k.id === wanted)]. *)
Definition find_id (wanted : string) (kb : list obj) : option obj :=
  find (fun k => String.eqb (id (snip k)) wanted) kb.

(** [`[${k.id}] ${k.text}`]. *)
Definition render (k : obj) : string :=
  ("[" ++ id (snip k) ++ "] " ++ text (snip k))%string.

Record context_result := { context : string; sources : list string }.

(** [/(a|b|...)/.test(q)] for literal alternatives. *)
Definition re_test (alts : list string) (q : string) : bool :=
  existsb (includes q) alts.

Definition no_info : string :=
  "I don't have verified information in my sources.".

Definition ok_envelope (a c : string) (srcs : list json) : response :=
  {| status := 200; payload := Envelope a c srcs |}.

(** The first brace-delimited substring, [s.match(/\{[\s\S]*\}/)]: from the
    first opening brace through the last closing brace after it. *)
Fixpoint through_last_close (s : string) : option string :=
  match s with
  | EmptyString => None
  | String c s' =>
      match through_last_close s' with
      | Some r => Some (String c r)
      | None => if Ascii.eqb c "}" then Some (String c EmptyString) else None
      end
  end.

Fixpoint match_braces (s : string) : option string :=
  match s with
  | EmptyString => None
  | String c s' =>
      if Ascii.eqb c "{" then through_last_close s else match_braces s'
  end.

(* ================================================================= *)
(** ** Model output parser (identical in every chat handler) *)

Section ModelOutput.

(** [JSON.parse]; [None] when it throws. *)
Variable JSON_parse : string -> option json.

Definition levels : list string := ["high"; "medium"; "low"].

Definition valid_level (v : jsval) : option string :=
  match v with
  | Some (JStr s) => if existsb (String.eqb s) levels then Some s else None
  | _ => None
  end.

(** [typeof parsed.answer === 'string' ? parsed.answer
       : String(parsed.answer || '')]; [None] when [String] throws. *)
Definition answer_of (p : jsval) : option string :=
  match p with
  | Some (JStr s) => Some s
  | Some v => if truthy p then to_String v else Some EmptyString
  | None => Some EmptyString
  end.

(** [Array.isArray(parsed.sources) ? parsed.sources
       : (parsed.sources ? [String(parsed.sources)] : [])]; [None] when
    [String] throws. *)
Definition sources_of (p : jsval) : option (list json) :=
  match p with
  | Some (JArr l) => Some l
  | Some v =>
      if truthy p then option_map (fun s => [JStr s]) (to_String v)
      else Some []
  | None => Some []
  end.

(** [sources.length ? (levels.includes(parsed.confidence)
       ? parsed.confidence : 'medium') : 'low']. *)
Definition confidence_of (srcs : list json) (p : jsval) : string :=
  match srcs with
  | _ :: _ => match valid_level p with Some c => c | None => "medium" end
  | [] => "low"
  end.

(** The body of the [try] block once [JSON.parse] has returned [parsed]:
    the answer, then the sources, then the confidence; [None] when a
    property read or a [String] conversion throws, which the [catch]
    turns into the fallback. *)
Definition coerce (parsed : json) : option response :=
  match get_prop parsed "answer", get_prop parsed "sources",
        get_prop parsed "confidence" with
  | Some p_answer, Some p_sources, Some p_confidence =>
      match answer_of p_answer with
      | None => None
      | Some answer =>
          match sources_of p_sources with
          | None => None
          | Some sources =>
              let confidence := confidence_of sources p_confidence in
              Some (ok_envelope (slice0 2000 answer) confidence sources)
          end
      end
  | _, _, _ => None
  end.

Definition fallback (generated : string) : response :=
  let fallbackText := slice0 2000 (trim generated) in
  ok_envelope (if is_empty fallbackText then no_info else fallbackText)
              "low" [].

(** From [generated] to the response. *)
Definition parse_generated (generated : string) : response :=
  match match_braces generated with
  | Some m =>
      match JSON_parse m with
      | Some parsed =>
          match coerce parsed with
          | Some r => r
          | None => fallback generated
          end
      | None => fallback generated
      end
  | None => fallback generated
  end.

End ModelOutput.

Definition somes {A : Type} (l : list (option A)) : list A :=
  flat_map (fun o => match o with Some x => [x] | None => [] end) l.

Definition text_of (o : option obj) : option string :=
  option_map (fun k => text (snip k)) o.

(** Truthiness of an optional string ([undefined] and the empty string
    are falsy). *)
Definition nonempty (o : option string) : bool :=
  match o with Some s => negb (is_empty s) | None => false end.

(** The text a chat handler accepts: a string that is not blank. *)
Definition question (v : jsval) : option string :=
  match v with
  | Some (JStr s) => if is_empty s || (String.length (trim s) =? 0)
                     then None else Some s
  | _ => None
  end.

Definition make_prompt (system_prompt context0 text0 : string) : string :=
  (system_prompt ++ nlnl ++ "CONTEXT:" ++ String nl context0 ++ nlnl
   ++ "QUESTION:" ++ String nl text0 ++ nlnl
   ++ "Reply now with ONLY the JSON object requested.")%string.

(* ================================================================= *)
(** ** api/chat.js: the Hugging Face backed chat handler *)

Module ChatHF.

Definition inline_kb : list snippet :=
  [ {| id := "KB_LIFE";
       text := "I am a fourth-year engineering student from Bengaluru who blends design and code." |};
    {| id := "KB_SUPERPOWER";
       text := "Superpower: creative problem-solving; combines design thinking with code to ship prototypes fast." |};
    {| id := "KB_GROW";
       text := "Wants to grow in backend systems & deployments, advanced ML/LLM tooling and RAG, and system design." |};
    {| id := "KB_SKILLS";
       text := "Skills: HTML, CSS, JavaScript, React, Node.js; Figma and UI/UX design interest." |};
    {| id := "KB_TRAITS";
       text := "I am creative, a fast learner, and enjoy working in groups." |};
    {| id := "KB_AI";
       text := "I have been dabbling in AI/ML because it is interesting and opens new ways to build helpful tools." |} ].

(** The set [hits] of [buildContext], in insertion order. *)
Definition hits (query : string) (kb : list snippet) : list obj :=
  let toks := tokens query in
  new_Set same_obj
    (filter (fun item =>
               existsb (tok_hits (toLowerCase (text (snip item)))) toks)
            (objects kb)).

Definition anchors (kb : list snippet) : list obj :=
  let life := find_id "KB_LIFE" (objects kb) in
  let superpower := find_id "KB_SUPERPOWER" (objects kb) in
  somes [life; superpower].

Definition selected (query : string) (kb : list snippet) : list obj :=
  new_Set same_obj (anchors kb ++ hits query kb).

Definition buildContext (query : string) (kb : list snippet)
  : context_result :=
  let sel := selected query kb in
  {| context := join nlnl (map render sel);
     sources := map (fun k => id (snip k)) sel |}.

Record call := { model : string; token : string; inputs : string }.

Inductive reply :=
| HfThrows (err : string)
| HfNotOk (upstream_body : string)
| HfOk (generated : string).

Definition canned_answer (a cid : string) : response :=
  ok_envelope a "high" [JStr cid].

(** The chain of quick canned responses; [None] when none applies. *)
Definition canned (KB : list snippet) (q : string) : option response :=
  let K := objects KB in
  let lifeText := text_of (find_id "KB_LIFE" K) in
  let superpowerText := text_of (find_id "KB_SUPERPOWER" K) in
  let growText := text_of (find_id "KB_GROW" K) in
  let pushText := text_of (find_id "KB_PUSH" K) in
  let misText := text_of (find_id "KB_MISCONCEPTION" K) in
  let interestsText :=
    if nonempty (text_of (find_id "KB_PERSONAL" K))
    then text_of (find_id "KB_PERSONAL" K)
    else text_of (find_id "KB_PERSONAL2" K) in
  let say (o : option string) (cid : string) :=
    canned_answer (match o with Some s => s | None => EmptyString end) cid in
  if nonempty lifeText
     && re_test ["what should we know"; "life story"; "who are you"; "bio";
                 "tell me about yourself"] q
  then Some (say lifeText "KB_LIFE")
  else if nonempty superpowerText
     && re_test ["superpower"; "super power"; "strength"; "best skill"] q
  then Some (say superpowerText "KB_SUPERPOWER")
  else if nonempty growText
     && re_test ["top 3"; "areas to grow"; "grow"; "improve";
                 "where do you want to grow"] q
  then Some (say growText "KB_GROW")
  else if nonempty pushText
     && re_test ["push your boundaries"; "push boundaries";
                 "challenge yourself"; "push your limits";
                 "stretch yourself"] q
  then Some (say pushText "KB_PUSH")
  else if nonempty misText
     && re_test ["misconception"; "what do people get wrong"; "coworker";
                 "misread you"] q
  then Some (say misText "KB_MISCONCEPTION")
  else if nonempty interestsText
     && re_test ["interests"; "hobbies"; "outside of work";
                 "what do you like"] q
  then Some (say interestsText "KB_PERSONAL")
  else None.

Section Handler.

Variable SYSTEM_PROMPT : string.
Variable JSON_parse : string -> option json.

Definition finish (r : reply) : response :=
  match r with
  | HfThrows err => json_error_details 500 "internal server error" err
  | HfNotOk b => json_error_details 502 "Model inference failed" b
  | HfOk generated => parse_generated JSON_parse generated
  end.

(** [handler(req, res)]; [KB] is what [loadKB()] resolves to, [HF_API_TOKEN]
    and [HF_MODEL] are the environment variables read. *)
Definition handler (HF_API_TOKEN HF_MODEL : envvar) (KB : list snippet)
  (req : request) : step call reply :=
  if negb (String.eqb (method req) "POST")
  then Respond (json_error 405 "Method not allowed")
  else match question (body_text req) with
  | None => Respond (json_error 400 "No question text provided")
  | Some text0 =>
      let q := toLowerCase text0 in
      match canned KB q with
      | Some r => Respond r
      | None =>
          let ctx := buildContext text0 KB in
          match sources ctx with
          | [] => Respond (ok_envelope no_info "low" [])
          | _ :: _ =>
              let prompt := make_prompt SYSTEM_PROMPT (context ctx) text0 in
              if negb (env_set HF_API_TOKEN) || negb (env_set HF_MODEL)
              then Respond (json_error 500
                     "Server not configured: set HF_API_TOKEN and HF_MODEL in env vars.")
              else Upstream
                     {| model := env_or HF_MODEL EmptyString;
                        token := env_or HF_API_TOKEN EmptyString;
                        inputs := prompt |}
                     finish
          end
      end
  end.

End Handler.

End ChatHF.

(* ================================================================= *)
(** ** The Gemini backed chat handler with scored retrieval *)

Module ChatGemini.

Definition inline_kb : list snippet :=
  [
    {| id := "KB_LIFE";
       text := "I am Nitya, a fourth-year engineering student from Bengaluru with a creative mindset; I build frontends and explore AI/ML." |};
    {| id := "KB_EDU";
       text := "Education: B.E. in Computer Science; coursework includes data structures, networks, and fundamentals of machine learning." |};
    {| id := "KB_SKILLS";
       text := "Skills: HTML, CSS, JavaScript, React, Node.js, Tailwind, Figma, GSAP, Electron, and beginner Python for ML." |};
    {| id := "KB_ARCHITECTURE";
       text := "Architecture: React + Vite frontend, Vercel serverless backend, Gemini Pro for intelligence, in-memory RAG over the Nitya KB, and ElevenLabs for voice output." |};
    {| id := "KB_PROJECT_OVABLOOM";
       text := "OvaBloom: frontend contributor. A PCOS companion app with explainable ML risk assessment, privacy-first local storage, and lifestyle tips." |};
    {| id := "KB_PROJECT_RAINSAFE";
       text := "RainSafe: hyperlocal flood alert prototype using environmental data and ML risk scoring; integrates map APIs and sends alerts to at-risk users." |};
    {| id := "KB_PROJECT_GAME";
       text := "Magical ball game: Toy Story-inspired exploration + stealth mechanics where different sports balls have unique behaviours and hiding spots." |};
    {| id := "KB_PROJECT_VOICENARY";
       text := "Voicenary: AI Voice Chat Application connecting to external AI services (Bolt-AI, ElevenLabs) via REST APIs; frontend built with React and Tailwind and deployed on Netlify." |};
    {| id := "KB_STYLE";
       text := "Voice style: casual, friendly, concise, honest. I prefer shipping imperfect versions quickly and iterating on feedback." |};
    {| id := "KB_SUPERPOWER";
       text := "Superpower: creative problem solving combining UI/UX thinking with engineering to quickly prototype useful products." |};
    {| id := "KB_GROW";
       text := "Growth areas: backend systems and scalable deployments, advanced ML/LLM tooling and RAG pipelines, and system design for production apps." |};
    {| id := "KB_WORK_PREF";
       text := "Work preference: short collaborative sessions and early mockups for feedback rather than long solitary focus stints." |};
    {| id := "KB_PERSONAL";
       text := "Interests: UI/UX design, full-stack development, small creative projects, crocheting, and making aesthetic social content." |};
    {| id := "KB_PERSONAL2";
       text := "Personality: creative, fast learner, always curious about AI and new tech; enjoys multiple hobbies outside of work." |};
    {| id := "KB_PUSH";
       text := "I push my boundaries by shipping imperfect versions quickly, time-boxing experiments, asking for feedback early, and iterating fast to learn." |};
    {| id := "KB_MISCONCEPTION";
       text := "Misconception: people think I prefer working alone because I focus deeply, but I do my best work in short collaborative sessions with quick feedback." |};
    {| id := "KB_TOOLING";
       text := "Tooling: comfortable with React, Tailwind, Electron; learning Node.js backend and experimenting with embeddings and RAG." |};
    {| id := "KB_RESUME_BULLET";
       text := "Resume bullet: Built a voice-first interview demo (React + Web Speech API) with retrieval-augmented HF LLM and guardrails for truthful answers." |};
    {| id := "KB_AVAIL";
       text := "Availability: full-time student but can commit to project-based freelance or remote work; open to internships abroad." |};
    {| id := "KB_FAQ";
       text := "FAQ: If asked about my superpower I say creative problem solving; if asked about growth I mention backend, LLMs, and system design." |};
    {| id := "KB_FAV_COLOR";
       text := "Favorite color: pastel lavender and soft sage." |};
    {| id := "KB_FAV_FOOD";
       text := "Favorite food: masala dosa with coconut chutney; also loves dark chocolate as a snack." |};
    {| id := "KB_PERSONALITY";
       text := "Personality type: collaborative, optimistic, ENFP-leaning; ships fast, iterates, and learns by doing." |};
    {| id := "KB_VALUES";
       text := "Values: honesty, quick feedback loops, and building useful things that help people." |};
    {| id := "KB_COMM";
       text := "Communication: prefers concise, friendly, first-person responses and short calls or Looms over long threads." |};
    {| id := "KB_TIME";
       text := "Location/timezone: Bengaluru (IST); can adjust for remote collaboration with prior notice." |};
    {| id := "KB_WEAKNESS";
       text := "Current focus areas: strengthening backend depth and system design; avoids overcommitting by time-boxing work." |} ].

(** [scored.sort((a, b) => b.score - a.score)]: a stable sort, descending
    by score. *)
Fixpoint insert_desc (x : obj) (l : list obj) : list obj :=
  match l with
  | [] => [x]
  | y :: l' =>
      if score_of x <? score_of y then y :: insert_desc x l' else x :: l
  end.
Definition sort_desc (l : list obj) : list obj :=
  fold_right insert_desc [] l.

(** The score of one item: the number of tokens that hit its text. *)
Definition item_score (toks : list string) (item : obj) : nat :=
  let t := toLowerCase (text (snip item)) in
  List.length (filter (tok_hits t) toks).

(** The array [scored] after the sort. *)
Definition scored (query : string) (kb : list snippet) : list obj :=
  let toks := tokens query in
  sort_desc
    (filter (fun s => 0 <? score_of s)
       (map (fun item => with_score item (item_score toks item))
            (objects kb))).

Definition anchor_ids : list string :=
  ["KB_LIFE"; "KB_SUPERPOWER"; "KB_SKILLS"; "KB_ARCHITECTURE"].

Definition anchors (kb : list snippet) : list obj :=
  filter (fun k => existsb (String.eqb (id (snip k))) anchor_ids)
         (objects kb).

Definition merged (query : string) (kb : list snippet) (maxChunks : nat)
  : list obj :=
  new_Set same_obj (anchors kb ++ firstn maxChunks (scored query kb)).

Definition buildContext (query : string) (kb : list snippet)
  (maxChunks : nat) : context_result :=
  let m := merged query kb maxChunks in
  match m with
  | [] => {| context := EmptyString; sources := [] |}
  | _ :: _ =>
      {| context := join nlnl (map render m);
         sources := map (fun k => id (snip k)) m |}
  end.

Definition default_maxChunks : nat := 5.

(** The table [canned]: the alternatives of each pattern and its id. *)
Definition canned : list (list string * string) :=
  [ (["what should we know"; "life story"; "who are you"; "bio";
      "tell me about yourself"], "KB_LIFE");
    (["superpower"; "super power"; "strength"; "best skill"],
     "KB_SUPERPOWER");
    (["how did you build"; "tech stack"; "how was this made";
      "architecture"], "KB_ARCHITECTURE");
    (["top 3"; "areas to grow"; "grow"; "improve";
      "where do you want to grow"], "KB_GROW");
    (["push your boundaries"; "push boundaries"; "challenge yourself";
      "push your limits"; "stretch yourself"], "KB_PUSH");
    (["misconception"; "what do people get wrong"; "coworker";
      "misread you"], "KB_MISCONCEPTION");
    (["interests"; "hobbies"; "outside of work"; "what do you like"],
     "KB_PERSONAL");
    (["rainsafe"; "flood"], "KB_PROJECT_RAINSAFE");
    (["ovabloom"; "pcos"], "KB_PROJECT_OVABLOOM") ].

(** The loop over the table: the first entry whose pattern matches and
    whose snippet is found answers. *)
Fixpoint canned_loop (K : list obj) (q : string)
  (table : list (list string * string)) : option response :=
  match table with
  | [] => None
  | (re, cid) :: rest =>
      if re_test re q then
        match find_id cid K with
        | Some hit => Some (ok_envelope (text (snip hit)) "high" [JStr cid])
        | None => canned_loop K q rest
        end
      else canned_loop K q rest
  end.

Record call := { model : string; key : string; prompt : string }.

Inductive reply :=
| GenThrows (err : string)
| GenText (generated : string).

Section Handler.

Variable SYSTEM_PROMPT : string.
Variable JSON_parse : string -> option json.

Definition finish (r : reply) : response :=
  match r with
  | GenThrows err => json_error_details 500 "internal server error" err
  | GenText generated => parse_generated JSON_parse generated
  end.

(** [handler(req, res)]; [KB] is what [loadKB()] resolves to. *)
Definition handler (GEMINI_API_KEY GEMINI_MODEL : envvar)
  (KB : list snippet) (req : request) : step call reply :=
  if negb (String.eqb (method req) "POST")
  then Respond (json_error 405 "Method not allowed")
  else match question (body_text req) with
  | None => Respond (json_error 400 "No question text provided")
  | Some text0 =>
      let q := toLowerCase text0 in
      match canned_loop (objects KB) q canned with
      | Some r => Respond r
      | None =>
          let ctx := buildContext text0 KB default_maxChunks in
          match sources ctx with
          | [] => Respond (ok_envelope no_info "low" [])
          | _ :: _ =>
              let p := make_prompt SYSTEM_PROMPT (context ctx) text0 in
              if negb (env_set GEMINI_API_KEY)
              then Respond (json_error 500
                     "Server not configured: set GEMINI_API_KEY.")
              else Upstream
                     {| model := env_or GEMINI_MODEL "gemini-1.5-flash";
                        key := env_or GEMINI_API_KEY EmptyString;
                        prompt := p |}
                     finish
          end
      end
  end.

End Handler.

End ChatGemini.

(* ================================================================= *)
(** ** Observations on handler runs, and sample data *)

(** The data-model invariant of a response envelope. *)
Definition envelope_invariant (r : response) : Prop :=
  match payload r with
  | Envelope _ c [] => c = "low"
  | _ => True
  end.

(** [P] holds of every response a run can end with. *)
Definition all_responses {Call Reply : Type} (P : response -> Prop)
  (st : step Call Reply) : Prop :=
  match st with
  | Respond r => P r
  | Upstream _ k => forall reply, P (k reply)
  end.

Definition post (t : string) : request :=
  {| method := "POST"; body_text := Some (JStr t) |}.

(** The alternatives of the life-story pattern. *)
Definition life_alts : list string :=
  ["what should we know"; "life story"; "who are you"; "bio";
   "tell me about yourself"].

(** The canned responses of api/chat.js read as a table, in source
    order: per entry the alternatives of its pattern, the text it answers
    with and the id it cites.  The text is that of the snippet with the
    entry's id; for the interests entry, which cites KB_PERSONAL, it is the
    text of KB_PERSONAL or, when that is absent or empty, of KB_PERSONAL2. *)
Definition hf_canned_entries (KB : list snippet)
  : list (list string * option string * string) :=
  let text_at (cid : string) := text_of (find_id cid (objects KB)) in
  [ (life_alts, text_at "KB_LIFE", "KB_LIFE");
    (["superpower"; "super power"; "strength"; "best skill"],
     text_at "KB_SUPERPOWER", "KB_SUPERPOWER");
    (["top 3"; "areas to grow"; "grow"; "improve";
      "where do you want to grow"],
     text_at "KB_GROW", "KB_GROW");
    (["push your boundaries"; "push boundaries"; "challenge yourself";
      "push your limits"; "stretch yourself"],
     text_at "KB_PUSH", "KB_PUSH");
    (["misconception"; "what do people get wrong"; "coworker";
      "misread you"],
     text_at "KB_MISCONCEPTION", "KB_MISCONCEPTION");
    (["interests"; "hobbies"; "outside of work"; "what do you like"],
     (if nonempty (text_at "KB_PERSONAL") then text_at "KB_PERSONAL"
      else text_at "KB_PERSONAL2"),
     "KB_PERSONAL") ].

(** The answer of the first entry of a table whose text is a non-empty
    string and whose pattern matches [q]. *)
Fixpoint first_entry (table : list (list string * option string * string))
  (q : string) : option response :=
  match table with
  | [] => None
  | (alts, o, cid) :: rest =>
      if nonempty o && re_test alts q
      then Some (ok_envelope (match o with Some t => t | None => EmptyString end)
                   "high" [JStr cid])
      else first_entry rest q
  end.

Module Sample.

(** [{"answer":"hi","confidence":"high","sources":[]}] *)
Definition text_high_nosrc : string :=
  ("{" ++ quoted "answer" ++ ":" ++ quoted "hi" ++ ","
   ++ quoted "confidence" ++ ":" ++ quoted "high" ++ ","
   ++ quoted "sources" ++ ":[]}")%string.
Definition value_high_nosrc : json :=
  JObj [("answer", JStr "hi"); ("confidence", JStr "high");
        ("sources", JArr [])].

(** [{"answer":"hi","confidence":"high","sources":["KB_LIFE"]}] *)
Definition text_high_life : string :=
  ("{" ++ quoted "answer" ++ ":" ++ quoted "hi" ++ ","
   ++ quoted "confidence" ++ ":" ++ quoted "high" ++ ","
   ++ quoted "sources" ++ ":[" ++ quoted "KB_LIFE" ++ "]}")%string.
Definition value_high_life : json :=
  JObj [("answer", JStr "hi"); ("confidence", JStr "high");
        ("sources", JArr [JStr "KB_LIFE"])].

Definition one : number := {| num_is_zero := false; num_text := "1" |}.

(** [{"answer":{"toString":1},"sources":["KB_LIFE"],"confidence":"high"}] *)
Definition text_own_toString : string :=
  ("{" ++ quoted "answer" ++ ":{" ++ quoted "toString" ++ ":1},"
   ++ quoted "sources" ++ ":[" ++ quoted "KB_LIFE" ++ "],"
   ++ quoted "confidence" ++ ":" ++ quoted "high" ++ "}")%string.
Definition value_own_toString : json :=
  JObj [("answer", JObj [("toString", JNum one)]);
        ("sources", JArr [JStr "KB_LIFE"]);
        ("confidence", JStr "high")].

(** [JSON.parse] on the sample texts; every other text used below is not
    JSON. *)
Definition parse (m : string) : option json :=
  if String.eqb m text_high_nosrc then Some value_high_nosrc
  else if String.eqb m text_high_life then Some value_high_life
  else if String.eqb m text_own_toString then Some value_own_toString
  else None.

Definition SYSTEM_PROMPT : string := "You are Nitya.".

(** A knowledge base whose life snippet is 2500 code units long. *)
Definition long_kb : list snippet :=
  [ {| id := "KB_LIFE"; text := repeat_char "a" 2500 |} ].

End Sample.

(* ================================================================= *)
(** ** The speech handler that sends its text as received *)

Module TtsPlain.

Definition default_voiceId : string := "6BZyx2XekeeXOkTVn8un".

(** [handler(req, res)] of the first speech handler; it reads
    [ELEVENLABS_API_KEY] and [ELEVENLABS_VOICE_ID]. *)
Definition handler (ELEVENLABS_API_KEY ELEVENLABS_VOICE_ID : envvar)
  (req : request) : step TtsHandler.call TtsHandler.reply :=
  if negb (String.eqb (method req) "POST")
  then Respond (json_error 405 "Method not allowed")
  else if negb (truthy (body_text req))
  then Respond (json_error 400 "No text provided")
  else match body_text req with
  | Some (JStr text0) =>
      if is_empty (trim text0)
      then Respond (json_error 400 "No text provided")
      else
        let voiceId := env_or ELEVENLABS_VOICE_ID default_voiceId in
        if negb (env_set ELEVENLABS_API_KEY)
        then Respond (json_error 500 "ELEVENLABS_API_KEY not set")
        else Upstream
               {| TtsHandler.url :=
                    "https://api.elevenlabs.io/v1/text-to-speech/" ++ voiceId;
                  TtsHandler.api_key := env_or ELEVENLABS_API_KEY EmptyString;
                  TtsHandler.text := text0 |}
               TtsHandler.finish
  | _ =>
      Respond (json_error_details 500 "internal server error"
                 "TypeError: text.trim is not a function")
  end.

End TtsPlain.

(* ================================================================= *)
(** ** The first Gemini backed chat handler *)

(** Its [buildContext] and its chain of canned responses are, character
    for character, those of api/chat.js. *)
Module ChatGeminiV1.

Definition buildContext := ChatHF.buildContext.
Definition canned := ChatHF.canned.

(** [a || b] on two environment variables. *)
Definition env_either (a b : envvar) : envvar :=
  if env_set a then a else b.

Section Handler.

Variable SYSTEM_PROMPT : string.
Variable JSON_parse : string -> option json.

Definition handler (GEMINI_API_KEY GOOGLE_API_KEY GEMINI_MODEL : envvar)
  (KB : list snippet) (req : request)
  : step ChatGemini.call ChatGemini.reply :=
  if negb (String.eqb (method req) "POST")
  then Respond (json_error 405 "Method not allowed")
  else match question (body_text req) with
  | None => Respond (json_error 400 "No question text provided")
  | Some text0 =>
      let q := toLowerCase text0 in
      match canned KB q with
      | Some r => Respond r
      | None =>
          let ctx := buildContext text0 KB in
          match sources ctx with
          | [] => Respond (ok_envelope no_info "low" [])
          | _ :: _ =>
              let p := make_prompt SYSTEM_PROMPT (context ctx) text0 in
              let GEMINI_KEY := env_either GEMINI_API_KEY GOOGLE_API_KEY in
              if negb (env_set GEMINI_KEY)
              then Respond (json_error 500
                     "Server not configured: set GEMINI_API_KEY (and optional GEMINI_MODEL).")
              else Upstream
                     {| ChatGemini.model :=
                          env_or GEMINI_MODEL "gemini-1.5-flash";
                        ChatGemini.key := env_or GEMINI_KEY EmptyString;
                        ChatGemini.prompt := p |}
                     (ChatGemini.finish JSON_parse)
          end
      end
  end.

End Handler.

End ChatGeminiV1.

(* ================================================================= *)
(** ** Loading the knowledge base *)

Module Loader.

Definition snippet_json (s : snippet) : json :=
  JObj [("id", JStr (id s)); ("text", JStr (text s))].

(** The inline fallback array. *)
Definition inline_json (inline : list snippet) : json :=
  JArr (map snippet_json inline).

Section LoadKB.

Variable JSON_parse : string -> option json.
Variable inline : list snippet.

(** What the [try]/[catch] assigns to [KB_CACHE] once the read has
    settled: the parsed content of the file, or the inline fallback when
    the read rejects ([None]) or the parse throws. *)
Definition loaded (file : option string) : json :=
  match file with
  | Some raw =>
      match JSON_parse raw with
      | Some v => v
      | None => inline_json inline
      end
  | None => inline_json inline
  end.

(** The module variable [KB_CACHE] (initially [null]) and the number of
    calls suspended at [await fs.readFile]. *)
Record state := { KB_CACHE : json; in_flight : nat }.

Definition initial : state := {| KB_CACHE := JNull; in_flight := 0 |}.

(** A call runs in two steps, separated by the [await]: the cache check
    when it is made, and the assignment when its read has settled. *)
Inductive event :=
| Call
| ReadSettled (file : option string).

(** One step and the value a call returns at it, if one returns.
    [Call]: [if (KB_CACHE) return KB_CACHE], otherwise the call suspends.
    [ReadSettled]: a suspended call assigns [KB_CACHE], whatever it holds
    by then, and returns it. *)
Definition step (st : state) (e : event) : state * option json :=
  match e with
  | Call =>
      if truthy (Some (KB_CACHE st)) then (st, Some (KB_CACHE st))
      else ({| KB_CACHE := KB_CACHE st; in_flight := S (in_flight st) |},
            None)
  | ReadSettled file =>
      match in_flight st with
      | O => (st, None)
      | S n =>
          let v := loaded file in
          ({| KB_CACHE := v; in_flight := n |}, Some v)
      end
  end.

(** The values returned along a run, in order, and the state it ends in. *)
Fixpoint run (st : state) (events : list event) : list json * state :=
  match events with
  | [] => ([], st)
  | e :: rest =>
      let (st', r) := step st e in
      let (rs, final) := run st' rest in
      (match r with Some v => v :: rs | None => rs end, final)
  end.

End LoadKB.

End Loader.

(* ================================================================= *)
(** ** The browser side: query normalisation *)

Module App.

(** [.replace(/[^\w\s]/g, ' ')]. *)
Fixpoint blank_punctuation (s : string) : string :=
  match s with
  | EmptyString => EmptyString
  | String c s' =>
      String (if is_word c || is_space c then c else " "%char)
             (blank_punctuation s')
  end.

(** [.replace(/\s+/g, ' ')]; [in_run] tells that the previous code unit
    was white space. *)
Fixpoint collapse_from (in_run : bool) (s : string) : string :=
  match s with
  | EmptyString => EmptyString
  | String c s' =>
      if is_space c
      then if in_run then collapse_from true s'
           else String " " (collapse_from true s')
      else String c (collapse_from false s')
  end.

(** [norm] of [sendToServer]. *)
Definition norm (s : string) : string :=
  trim (collapse_from false (blank_punctuation (toLowerCase s))).

End App.

(* ================================================================= *)
(** * Properties *)

(** ** Strings *)

Section StringFacts.

Lemma is_empty_true (s : string) : is_empty s = true -> s = EmptyString.
Proof. destruct s; [reflexivity | discriminate]. Qed.

Lemma all_chars_app (P : ascii -> bool) (s t : string) :
  all_chars P (s ++ t) = all_chars P s && all_chars P t.
Proof.
  induction s as [|c s IH]; simpl; [reflexivity|].
  rewrite IH. apply andb_assoc.
Qed.

(** A pattern that does not occur is not replaced. *)
Lemma replace_from_absent (p r s : string) :
  includes s p = false -> replace_from p r 0 s = s.
Proof.
  induction s as [|c s IH]; cbn [replace_from includes]; [reflexivity|].
  intros H. apply orb_false_iff in H. destruct H as [Hp Hs].
  rewrite Hp. f_equal. apply IH, Hs.
Qed.

(** Replacement only emits code units of the subject and of the
    replacement. *)
Lemma replace_from_all_chars (P : ascii -> bool) (p r s : string) :
  all_chars P r = true -> all_chars P s = true ->
  forall skip, all_chars P (replace_from p r skip s) = true.
Proof.
  intros Hr. induction s as [|c s IH]; cbn [replace_from all_chars];
    intros Hs skip; [reflexivity|].
  apply andb_true_iff in Hs. destruct Hs as [Hc Hs].
  destruct skip as [|k]; [|apply IH; assumption].
  destruct (prefix p (String c s)).
  - rewrite all_chars_app, Hr. simpl. apply IH; assumption.
  - cbn [all_chars]. rewrite Hc. simpl. apply IH; assumption.
Qed.

Lemma trimStart_all_chars (P : ascii -> bool) (s : string) :
  all_chars P s = true -> all_chars P (trimStart s) = true.
Proof.
  induction s as [|c s IH]; simpl; intros H; [reflexivity|].
  destruct (is_space c); [|exact H].
  apply andb_true_iff in H. apply IH, H.
Qed.

Lemma trimEnd_all_chars (P : ascii -> bool) (s : string) :
  all_chars P s = true -> all_chars P (trimEnd s) = true.
Proof.
  induction s as [|c s IH]; simpl; intros H; [reflexivity|].
  apply andb_true_iff in H. destruct H as [Hc Hs].
  destruct (is_space c && is_empty (trimEnd s)); simpl; [reflexivity|].
  rewrite Hc. simpl. apply IH, Hs.
Qed.

(** Removing a single code unit leaves none of it. *)
Lemma remove_char_all (a : ascii) (s : string) :
  all_chars (fun c => negb (Ascii.eqb c a))
            (replaceAll (String a EmptyString) EmptyString s) = true.
Proof.
  unfold replaceAll. induction s as [|c s IH]; [reflexivity|].
  cbn [replace_from prefix String.length pred].
  destruct (ascii_dec a c) as [E|N].
  - destruct s; exact IH.
  - destruct s; cbn [all_chars];
      (replace (Ascii.eqb c a) with false
         by (symmetry; apply Ascii.eqb_neq; congruence));
      simpl; try reflexivity; exact IH.
Qed.

Lemma absent_char (a : ascii) (s : string) :
  all_chars (fun c => negb (Ascii.eqb c a)) s = true ->
  includes s (String a EmptyString) = false.
Proof.
  induction s as [|c s IH]; [reflexivity|].
  cbn [all_chars includes prefix]. intros H.
  apply andb_true_iff in H. destruct H as [Hc Hs].
  apply negb_true_iff, Ascii.eqb_neq in Hc.
  destruct (ascii_dec a c) as [E|N]; [congruence|].
  simpl. apply IH, Hs.
Qed.

End StringFacts.

Section PairFacts.

Variables a b x : ascii.
Hypothesis x_not_a : x <> a.
Hypothesis x_not_b : x <> b.

Let p : string := String a (String b EmptyString).
Let r : string := String x EmptyString.

Lemma no_pair_cons (c : ascii) (s : string) :
  no_pair a b (String c s) =
  negb (Ascii.eqb c a && starts b s) && no_pair a b s.
Proof. destruct s; simpl; [rewrite andb_false_r|]; reflexivity. Qed.

Lemma prefix_pair (c : ascii) (s : string) :
  prefix p (String c s) = Ascii.eqb c a && starts b s.
Proof.
  unfold p. cbn [prefix].
  destruct (ascii_dec a c) as [E|N].
  - subst c. rewrite Ascii.eqb_refl. destruct s as [|d s]; [reflexivity|].
    cbn [starts andb prefix]. destruct (ascii_dec b d) as [E|N].
    + subst d. rewrite Ascii.eqb_refl. destruct s; reflexivity.
    + symmetry. apply Ascii.eqb_neq. congruence.
  - replace (Ascii.eqb c a) with false; [reflexivity|].
    symmetry. apply Ascii.eqb_neq. congruence.
Qed.

(** The output of the replacement starts with [b] only if its input
    does. *)
Lemma replace_pair_starts (s : string) :
  starts b (replace_from p r 0 s) = true -> starts b s = true.
Proof.
  destruct s as [|c s]; [discriminate|].
  cbn [replace_from]. destruct (prefix p (String c s)).
  - unfold r. cbn [append starts]. intros H.
    apply Ascii.eqb_eq in H. contradiction.
  - trivial.
Qed.

(** After the replacement no [a] is followed by [b]. *)
Lemma replace_pair_no_pair (s : string) :
  no_pair a b (replace_from p r 0 s) = true
  /\ no_pair a b (replace_from p r 1 s) = true.
Proof.
  induction s as [|c s [IH0 IH1]]; [split; reflexivity|].
  split; [|exact IH0].
  cbn [replace_from]. rewrite prefix_pair.
  destruct (Ascii.eqb c a && starts b s) eqn:M.
  - change (Init.Nat.pred (String.length p)) with 1.
    change (r ++ replace_from p r 1 s)%string
      with (String x (replace_from p r 1 s)).
    rewrite no_pair_cons, IH1.
    replace (Ascii.eqb x a) with false
      by (symmetry; apply Ascii.eqb_neq; exact x_not_a).
    reflexivity.
  - rewrite no_pair_cons, IH0, andb_true_r.
    destruct (Ascii.eqb c a); [|reflexivity].
    destruct (starts b (replace_from p r 0 s)) eqn:S0; [|reflexivity].
    apply replace_pair_starts in S0. rewrite S0 in M. discriminate.
Qed.

Lemma no_pair_tail (c : ascii) (s : string) :
  no_pair a b (String c s) = true -> no_pair a b s = true.
Proof. rewrite no_pair_cons. intros H. apply andb_true_iff in H. apply H. Qed.

Lemma trimStart_no_pair (s : string) :
  no_pair a b s = true -> no_pair a b (trimStart s) = true.
Proof.
  induction s as [|c s IH]; intros H; [reflexivity|].
  cbn [trimStart]. destruct (is_space c); [|exact H].
  apply IH. exact (no_pair_tail _ _ H).
Qed.

Lemma trimEnd_starts (d : ascii) (s : string) :
  starts d (trimEnd s) = true -> starts d s = true.
Proof.
  destruct s as [|c s]; [discriminate|].
  cbn [trimEnd]. destruct (is_space c && is_empty (trimEnd s));
    [discriminate | trivial].
Qed.

Lemma trimEnd_no_pair (s : string) :
  no_pair a b s = true -> no_pair a b (trimEnd s) = true.
Proof.
  induction s as [|c s IH]; intros H; [reflexivity|].
  cbn [trimEnd]. destruct (is_space c && is_empty (trimEnd s));
    [reflexivity|].
  rewrite no_pair_cons in H. apply andb_true_iff in H. destruct H as [H1 H2].
  rewrite no_pair_cons, (IH H2), andb_true_r.
  destruct (Ascii.eqb c a); [|reflexivity].
  destruct (starts b (trimEnd s)) eqn:S0; [|reflexivity].
  apply trimEnd_starts in S0. rewrite S0 in H1. discriminate.
Qed.

Lemma absent_pair (s : string) :
  no_pair a b s = true -> includes s p = false.
Proof.
  induction s as [|c s IH]; [reflexivity|].
  intros H. cbn [includes]. rewrite prefix_pair.
  rewrite no_pair_cons in H. apply andb_true_iff in H. destruct H as [H1 H2].
  apply negb_true_iff in H1. rewrite H1. simpl. apply IH, H2.
Qed.

End PairFacts.

Section TrimFacts.

Lemma trimEnd_idempotent (s : string) : trimEnd (trimEnd s) = trimEnd s.
Proof.
  induction s as [|c s IH]; [reflexivity|].
  cbn [trimEnd].
  destruct (is_space c && is_empty (trimEnd s)) eqn:E; [reflexivity|].
  cbn [trimEnd]. rewrite IH, E. reflexivity.
Qed.

(** A string that does not start with white space is left alone by
    [trimStart]. *)
Lemma trimStart_fixed (s : string) :
  starts_space s = false -> trimStart s = s.
Proof.
  destruct s as [|c s]; [reflexivity|].
  cbn [starts_space trimStart]. intros ->. reflexivity.
Qed.

Lemma trimStart_starts (s : string) : starts_space (trimStart s) = false.
Proof.
  induction s as [|c s IH]; [reflexivity|].
  cbn [trimStart]. destruct (is_space c) eqn:E; [exact IH|].
  cbn [starts_space]. exact E.
Qed.

Lemma trimEnd_starts_space (s : string) :
  starts_space s = false -> starts_space (trimEnd s) = false.
Proof.
  destruct s as [|c s]; [reflexivity|].
  cbn [starts_space trimEnd]. intros E.
  destruct (is_space c && is_empty (trimEnd s)); [reflexivity | exact E].
Qed.

Lemma trim_idempotent (s : string) : trim (trim s) = trim s.
Proof.
  unfold trim.
  rewrite (trimStart_fixed (trimEnd (trimStart s))).
  - apply trimEnd_idempotent.
  - apply trimEnd_starts_space, trimStart_starts.
Qed.

Lemma prefix_app (p q s : string) :
  prefix (p ++ q) s = true -> prefix p s = true.
Proof.
  revert s. induction p as [|c p IH]; intros s; [destruct s; reflexivity|].
  destruct s as [|d s]; cbn [append prefix]; [trivial|].
  destruct (ascii_dec c d); [apply IH | trivial].
Qed.

Lemma includes_app_absent (p q s : string) :
  includes s p = false -> includes s (p ++ q) = false.
Proof.
  induction s as [|c s IH]; cbn [includes]; intros H;
    apply orb_false_iff in H; destruct H as [H1 H2].
  - rewrite orb_false_r in *.
    destruct (prefix (p ++ q) EmptyString) eqn:E; [|reflexivity].
    apply prefix_app in E. congruence.
  - rewrite (IH H2), orb_false_r.
    destruct (prefix (p ++ q) (String c s)) eqn:E; [|reflexivity].
    apply prefix_app in E. congruence.
Qed.

End TrimFacts.

(* ================================================================= *)
(** ** Speech-text cleaning *)

Section CleanFacts.
Import Tts.

Lemma keeps (P : ascii -> bool) (p r s : string) :
  all_chars P r = true -> all_chars P s = true ->
  all_chars P (replaceAll p r s) = true.
Proof. intros Hr Hs. apply replace_from_all_chars; assumption. Qed.

(** No brace survives the cleaning. *)
Lemma clean_no_open (s : string) : includes (clean s) pat_open = false.
Proof.
  apply absent_char. unfold clean, trim.
  apply trimEnd_all_chars, trimStart_all_chars.
  do 4 (apply keeps; [reflexivity|]).
  apply remove_char_all.
Qed.

Lemma clean_no_close (s : string) : includes (clean s) pat_close = false.
Proof.
  apply absent_char. unfold clean, trim.
  apply trimEnd_all_chars, trimStart_all_chars.
  do 3 (apply keeps; [reflexivity|]).
  apply remove_char_all.
Qed.

(** No backslash followed by n survives the cleaning. *)
Lemma clean_no_backslash_n (s : string) :
  includes (clean s) pat_backslash_n = false.
Proof.
  apply (absent_pair "\" "n"). unfold clean, trim.
  apply trimEnd_no_pair, trimStart_no_pair.
  apply (replace_pair_no_pair "\" "n" " "); discriminate.
Qed.

Lemma clean_trimmed (s : string) : trim (clean s) = clean s.
Proof. unfold clean. apply trim_idempotent. Qed.

End CleanFacts.

(** C3 (as amended).  A second cleaning pass returns the first pass's
    output unchanged whenever that output contains no code fence, no
    ["answer":] label and no [Confidence: low] fragment; braces and
    backslash-n never survive a pass, and the output is already trimmed. *)
Theorem clean_twice_when_clear (s : string) :
  includes (Tts.clean s) Tts.pat_fence = false ->
  includes (Tts.clean s) Tts.pat_answer = false ->
  includes (Tts.clean s) Tts.pat_confidence = false ->
  Tts.clean (Tts.clean s) = Tts.clean s.
Proof.
  intros Hf Ha Hc.
  assert (Hj : includes (Tts.clean s) Tts.pat_fence_json = false)
    by (apply (includes_app_absent Tts.pat_fence "json"), Hf).
  unfold Tts.clean at 1. unfold replaceAll.
  rewrite (replace_from_absent _ _ _ Hj).
  rewrite (replace_from_absent _ _ _ Hf).
  rewrite (replace_from_absent _ _ _ (clean_no_open s)).
  rewrite (replace_from_absent _ _ _ (clean_no_close s)).
  rewrite (replace_from_absent _ _ _ Ha).
  rewrite (replace_from_absent _ _ _ Hc).
  rewrite (replace_from_absent _ _ _ (clean_no_backslash_n s)).
  apply clean_trimmed.
Qed.

Lemma clean_twice_when_clear_witness :
  Tts.clean (Tts.clean "  {hello} there\n ")
  = Tts.clean "  {hello} there\n ".
Proof. apply clean_twice_when_clear; reflexivity. Defined.

(** C3 (as stated) fails: removing the brace joins three backticks, which
    only a second pass removes. *)
Lemma clean_not_idempotent :
  Tts.clean (Tts.clean "`{``") <> Tts.clean "`{``".
Proof. vm_compute. discriminate. Qed.

(** The backslash-n replacement can likewise assemble a fragment. *)
Lemma backslash_n_assembles_fragment :
  Tts.clean "Confidence:\nlow" = "Confidence: low"
  /\ Tts.clean (Tts.clean "Confidence:\nlow") = EmptyString.
Proof. split; reflexivity. Qed.

(** C10 (as amended).  The speech handler checks for a blank text before
    it cleans.  For every POST whose text is a string that is not blank,
    the handler does not answer 400, whatever the cleaning leaves: with the
    API key set it calls the speech endpoint with the cleaned text, which
    is the empty text when the request text consists of removable patterns
    and white space only (such as the two braces); with the API key unset
    it answers 500 and sends nothing. *)
Theorem tts_validates_before_cleaning
  (key : envvar) (text0 : string) :
  is_empty (trim text0) = false ->
  (forall r, TtsHandler.handler key (post text0) = Respond r ->
             status r <> 400)
  /\ (env_set key = true ->
      exists c,
        TtsHandler.handler key (post text0)
        = Upstream c TtsHandler.finish
        /\ TtsHandler.text c = Tts.clean text0
        /\ (Tts.clean text0 = EmptyString ->
            TtsHandler.text c = EmptyString))
  /\ (env_set key = false ->
      TtsHandler.handler key (post text0)
      = Respond (json_error 500 "ELEVENLABS_API_KEY not set")).
Proof.
  intros Hb.
  assert (Ht : truthy (Some (JStr text0)) = true).
  { destruct text0; [discriminate | reflexivity]. }
  unfold TtsHandler.handler, post. cbn [method body_text].
  change (negb (String.eqb "POST" "POST")) with false. cbv iota.
  rewrite Ht, Hb. cbn [negb]. split; [|split].
  - intros r. destruct (env_set key); cbn [negb]; [discriminate|].
    intros E. injection E as <-. discriminate.
  - intros ->. cbn [negb]. eexists. split; [reflexivity|].
    cbn [TtsHandler.text]. split; [reflexivity | trivial].
  - intros ->. reflexivity.
Qed.

Lemma tts_validates_before_cleaning_witness :
  exists c,
    TtsHandler.handler (Some "k") (post "{}")
    = Upstream c TtsHandler.finish
    /\ TtsHandler.text c = EmptyString.
Proof.
  destruct (proj1 (proj2 (tts_validates_before_cleaning (Some "k") "{}"
                            eq_refl)) eq_refl) as [c [E [_ Hempty]]].
  exists c. split; [exact E | apply Hempty; reflexivity].
Defined.

(** C10 (as stated) fails: a single space is a non-empty text that
    consists of white space only and is cleaned to the empty text, yet the
    answer is 400; and with the API key unset the two braces are answered
    with 500, nothing being sent. *)
Lemma tts_blank_text_rejected :
  is_empty " " = false
  /\ Tts.clean " " = EmptyString
  /\ TtsHandler.handler (Some "k") (post " ")
     = Respond (json_error 400 "No text provided")
  /\ TtsHandler.handler None (post "{}")
     = Respond (json_error 500 "ELEVENLABS_API_KEY not set").
Proof. repeat split. Qed.

(* ================================================================= *)
(** ** Model output parser *)

Section ParserFacts.

Variable JSON_parse : string -> option json.

Lemma slice0_length (n : nat) (s : string) : String.length (slice0 n s) <= n.
Proof.
  revert s. induction n as [|n IH]; intros [|c s]; simpl; try lia.
  specialize (IH s). lia.
Qed.

Lemma slice0_short (n : nat) (s : string) :
  String.length s <= n -> slice0 n s = s.
Proof.
  revert s. induction n as [|n IH]; intros [|c s]; simpl; intros H;
    try reflexivity; try lia.
  f_equal. apply IH. lia.
Qed.

Lemma valid_level_some (v : jsval) (l : string) :
  valid_level v = Some l -> v = Some (JStr l) /\ In l levels.
Proof.
  destruct v as [[| | |s| |]|]; try discriminate.
  unfold valid_level. destruct (existsb (String.eqb s) levels) eqn:E;
    [|discriminate].
  intros H. injection H as <-. split; [reflexivity|].
  apply existsb_exists in E. destruct E as [x [Hin Hx]].
  apply String.eqb_eq in Hx. subst x. exact Hin.
Qed.

Lemma valid_level_in (c : string) :
  In c levels -> valid_level (Some (JStr c)) = Some c.
Proof.
  intros H. unfold valid_level.
  replace (existsb (String.eqb c) levels) with true; [reflexivity|].
  symmetry. apply existsb_exists. exists c. split; [exact H|].
  apply String.eqb_refl.
Qed.

Lemma coerce_object (fields : list (string * json)) :
  coerce (JObj fields)
  = match answer_of (assoc "answer" fields) with
    | None => None
    | Some a =>
        match sources_of (assoc "sources" fields) with
        | None => None
        | Some srcs =>
            Some (ok_envelope (slice0 2000 a)
                    (confidence_of srcs (assoc "confidence" fields)) srcs)
        end
    end.
Proof. reflexivity. Qed.

(** Whatever [coerce] returns is a 200 envelope cut at 2000 with a
    confidence computed from its sources. *)
Lemma coerce_some (parsed : json) (r : response) :
  coerce parsed = Some r ->
  exists a srcs pc,
    r = ok_envelope (slice0 2000 a) (confidence_of srcs pc) srcs.
Proof.
  unfold coerce.
  destruct (get_prop parsed "answer") as [pa|]; [|discriminate].
  destruct (get_prop parsed "sources") as [ps|]; [|discriminate].
  destruct (get_prop parsed "confidence") as [pc|]; [|discriminate].
  destruct (answer_of pa) as [a|]; [|discriminate].
  destruct (sources_of ps) as [srcs|]; [|discriminate].
  intros H. injection H as <-. exists a, srcs, pc. reflexivity.
Qed.

Lemma confidence_of_level (srcs : list json) (p : jsval) :
  In (confidence_of srcs p) levels.
Proof.
  unfold confidence_of. destruct srcs; [simpl; tauto|].
  destruct (valid_level p) eqn:E; [|simpl; tauto].
  apply valid_level_some in E. apply E.
Qed.

Lemma coerce_invariant (parsed : json) (r : response) :
  coerce parsed = Some r -> envelope_invariant r.
Proof.
  intros H. apply coerce_some in H. destruct H as [a [srcs [pc ->]]].
  unfold envelope_invariant. cbn [payload ok_envelope].
  destruct srcs; [reflexivity | exact I].
Qed.

Lemma fallback_invariant (g : string) : envelope_invariant (fallback g).
Proof. reflexivity. Qed.

Lemma parse_generated_invariant (g : string) :
  envelope_invariant (parse_generated JSON_parse g).
Proof.
  unfold parse_generated.
  destruct (match_braces g) as [m|]; [|apply fallback_invariant].
  destruct (JSON_parse m) as [parsed|]; [|apply fallback_invariant].
  destruct (coerce parsed) as [r|] eqn:E; [|apply fallback_invariant].
  exact (coerce_invariant _ _ E).
Qed.

Lemma parse_generated_200 (g : string) :
  exists a c srcs, parse_generated JSON_parse g = ok_envelope a c srcs.
Proof.
  unfold parse_generated.
  destruct (match_braces g) as [m|]; [|unfold fallback; eauto].
  destruct (JSON_parse m) as [parsed|]; [|unfold fallback; eauto].
  destruct (coerce parsed) as [r|] eqn:E; [|unfold fallback; eauto].
  apply coerce_some in E. destruct E as [a [srcs [pc ->]]]. eauto.
Qed.

End ParserFacts.

Section CoercionFacts.

Lemma answer_of_falsy (p : jsval) :
  truthy p = false -> answer_of p = Some EmptyString.
Proof.
  intros Ht. destruct p as [[| b | n | s | l | f]|]; cbn [answer_of];
    try rewrite Ht; try reflexivity.
  destruct s; [reflexivity | discriminate Ht].
Qed.

Lemma answer_of_other (v : json) :
  truthy (Some v) = true -> (forall s, v <> JStr s) ->
  answer_of (Some v) = to_String v.
Proof.
  intros Ht Hns. destruct v; cbn [answer_of]; try (rewrite Ht; reflexivity).
  exfalso. exact (Hns _ eq_refl).
Qed.

Lemma sources_of_falsy (p : jsval) :
  truthy p = false -> sources_of p = Some [].
Proof.
  intros Ht. destruct p as [[| b | n | s | l | f]|]; cbn [sources_of];
    try rewrite Ht; try reflexivity.
  discriminate Ht.
Qed.

Lemma sources_of_other (v : json) :
  truthy (Some v) = true -> (forall l, v <> JArr l) ->
  sources_of (Some v) = option_map (fun s => [JStr s]) (to_String v).
Proof.
  intros Ht Hna. destruct v; cbn [sources_of];
    try (rewrite Ht; reflexivity).
  exfalso. exact (Hna _ eq_refl).
Qed.

End CoercionFacts.

(** C5 (as amended).  When the extracted brace-delimited substring parses
    as a JSON object, the answer is coerced to a string (the string itself,
    the empty string for a missing or falsy value, [String(value)]
    otherwise) and the sources to an array (the array itself, the empty
    array for a missing or falsy value, [[String(value)]] otherwise).  If
    [String] throws in either coercion the parser falls back as for
    unparsable output.  Otherwise the response is a 200 envelope with the
    answer cut at 2000 code units, those sources, and a confidence that is
    low when the sources are empty, the given value when the sources are
    non-empty and it is one of the three levels, and medium when they are
    non-empty and it is not.  An object that already has the envelope
    shape, with non-empty sources or confidence low, is reproduced with
    the answer cut at 2000. *)
Theorem parsed_output_coerced
  (JSON_parse : string -> option json) (generated m : string)
  (fields : list (string * json)) :
  match_braces generated = Some m ->
  JSON_parse m = Some (JObj fields) ->
  let p_answer := assoc "answer" fields in
  let p_sources := assoc "sources" fields in
  let p_confidence := assoc "confidence" fields in
  (forall s, p_answer = Some (JStr s) -> answer_of p_answer = Some s)
  /\ (truthy p_answer = false -> answer_of p_answer = Some EmptyString)
  /\ (forall v, p_answer = Some v -> truthy p_answer = true ->
        (forall s, v <> JStr s) -> answer_of p_answer = to_String v)
  /\ (forall l, p_sources = Some (JArr l) -> sources_of p_sources = Some l)
  /\ (truthy p_sources = false -> sources_of p_sources = Some [])
  /\ (forall v, p_sources = Some v -> truthy p_sources = true ->
        (forall l, v <> JArr l) ->
        sources_of p_sources = option_map (fun s => [JStr s]) (to_String v))
  /\ (forall l, valid_level p_confidence = Some l <->
                p_confidence = Some (JStr l) /\ In l levels)
  /\ (answer_of p_answer = None \/ sources_of p_sources = None ->
      parse_generated JSON_parse generated = fallback generated)
  /\ (forall a0 srcs,
        answer_of p_answer = Some a0 ->
        sources_of p_sources = Some srcs ->
        exists c,
          parse_generated JSON_parse generated
          = ok_envelope (slice0 2000 a0) c srcs
          /\ String.length (slice0 2000 a0) <= 2000
          /\ (String.length a0 <= 2000 -> slice0 2000 a0 = a0)
          /\ In c levels
          /\ (srcs = [] -> c = "low")
          /\ (srcs <> [] ->
              forall l, valid_level p_confidence = Some l -> c = l)
          /\ (srcs <> [] -> valid_level p_confidence = None ->
              c = "medium"))
  /\ (forall s l c0,
        p_answer = Some (JStr s) ->
        p_sources = Some (JArr l) ->
        p_confidence = Some (JStr c0) ->
        In c0 levels ->
        l <> [] \/ c0 = "low" ->
        parse_generated JSON_parse generated
        = ok_envelope (slice0 2000 s) c0 l
        /\ (String.length s <= 2000 -> slice0 2000 s = s)).
Proof.
  intros Hm Hp p_answer p_sources p_confidence.
  assert (E : parse_generated JSON_parse generated
              = match coerce (JObj fields) with
                | Some r => r
                | None => fallback generated
                end)
    by (unfold parse_generated; rewrite Hm, Hp; reflexivity).
  rewrite coerce_object in E.
  fold p_answer p_sources p_confidence in E.
  split; [intros s ->; reflexivity|].
  split; [apply answer_of_falsy|].
  split; [intros v -> Ht Hns; apply answer_of_other; assumption|].
  split; [intros l ->; reflexivity|].
  split; [apply sources_of_falsy|].
  split; [intros v -> Ht Hna; apply sources_of_other; assumption|].
  split.
  { intros l. split; [apply valid_level_some|].
    intros [-> Hin]. apply valid_level_in, Hin. }
  split.
  { intros [Ha | Hs]; rewrite E.
    - rewrite Ha. reflexivity.
    - rewrite Hs. destruct (answer_of p_answer); reflexivity. }
  split.
  { intros a0 srcs Ha Hs. rewrite Ha, Hs in E.
    exists (confidence_of srcs p_confidence).
    split; [exact E|]. split; [apply slice0_length|].
    split; [apply slice0_short|]. split; [apply confidence_of_level|].
    split; [intros ->; reflexivity|]. unfold confidence_of. split.
    - destruct srcs; [congruence|]. intros _ l ->. reflexivity.
    - destruct srcs; [congruence|]. intros _ ->. reflexivity. }
  intros s l c0 Ha Hs Hc Hin Hinv. rewrite E, Ha, Hs, Hc.
  cbn [answer_of sources_of]. split; [|apply slice0_short].
  unfold confidence_of. destruct l as [|x l].
  - destruct Hinv as [Hne | ->]; [congruence | reflexivity].
  - rewrite (valid_level_in _ Hin). reflexivity.
Qed.

Lemma parsed_output_coerced_witness :
  parse_generated Sample.parse ("Sure: " ++ Sample.text_high_life)
  = ok_envelope (slice0 2000 "hi") "high" [JStr "KB_LIFE"]
  /\ (String.length "hi" <= 2000 -> slice0 2000 "hi" = "hi").
Proof.
  refine (proj2 (proj2 (proj2 (proj2 (proj2 (proj2 (proj2 (proj2 (proj2
            (parsed_output_coerced Sample.parse
               ("Sure: " ++ Sample.text_high_life) Sample.text_high_life
               [("answer", JStr "hi"); ("confidence", JStr "high");
                ("sources", JArr [JStr "KB_LIFE"])]
               eq_refl eq_refl)))))))))
            "hi" [JStr "KB_LIFE"] "high" eq_refl eq_refl eq_refl _ _).
  - simpl. tauto.
  - left. discriminate.
Defined.

(** A [String] conversion that throws inside the [try] block ends in the
    fallback: the answer object has an own [toString] property. *)
Lemma own_toString_falls_back :
  Sample.parse Sample.text_own_toString
  = Some (JObj [("answer", JObj [("toString", JNum Sample.one)]);
                ("sources", JArr [JStr "KB_LIFE"]);
                ("confidence", JStr "high")])
  /\ parse_generated Sample.parse Sample.text_own_toString
     = ok_envelope Sample.text_own_toString "low" [].
Proof. split; vm_compute; reflexivity. Qed.

(** C5 (as stated) fails on the round trip: an object of the envelope
    shape with empty sources and confidence high comes back with
    confidence low. *)
Lemma envelope_not_reproduced :
  match_braces Sample.text_high_nosrc = Some Sample.text_high_nosrc
  /\ Sample.parse Sample.text_high_nosrc
     = Some (JObj [("answer", JStr "hi"); ("confidence", JStr "high");
                   ("sources", JArr [])])
  /\ parse_generated Sample.parse Sample.text_high_nosrc
     = ok_envelope "hi" "low" []
  /\ parse_generated Sample.parse Sample.text_high_nosrc
     <> ok_envelope "hi" "high" [].
Proof. repeat split; try reflexivity. vm_compute. discriminate. Qed.

(** C6 (as amended).  When there is no brace-delimited substring, or the
    extracted one does not parse, the answer is the trimmed text cut at
    2000 code units, or the fixed no-information sentence when that is
    empty; confidence is low and the sources are empty. *)
Theorem unparsed_output_falls_back
  (JSON_parse : string -> option json) (generated : string) :
  (match_braces generated = None
   \/ exists m, match_braces generated = Some m /\ JSON_parse m = None) ->
  let t := slice0 2000 (trim generated) in
  parse_generated JSON_parse generated
  = ok_envelope (if is_empty t then no_info else t) "low" []
  /\ (is_empty (trim generated) = false ->
      String.length (trim generated) <= 2000 ->
      parse_generated JSON_parse generated
      = ok_envelope (trim generated) "low" []).
Proof.
  intros H t.
  assert (E : parse_generated JSON_parse generated = fallback generated).
  { unfold parse_generated. destruct H as [-> | [m [-> ->]]]; reflexivity. }
  rewrite E. split; [reflexivity|].
  intros Hne Hlen. unfold fallback.
  rewrite (slice0_short _ _ Hlen), Hne. reflexivity.
Qed.

Lemma unparsed_output_falls_back_witness :
  parse_generated Sample.parse "  I like {design  "
  = ok_envelope "I like {design" "low" [].
Proof.
  apply (unparsed_output_falls_back Sample.parse "  I like {design  ");
    [left; reflexivity | reflexivity | vm_compute; lia].
Defined.

(** C6 (as stated) fails: a blank model output has no brace-delimited
    substring, and the answer is not its trimmed text. *)
Lemma fallback_not_raw_text :
  match_braces "   " = None
  /\ parse_generated Sample.parse "   " <> ok_envelope (trim "   ") "low" []
  /\ parse_generated Sample.parse "   " = ok_envelope no_info "low" [].
Proof. repeat split; try reflexivity. vm_compute. discriminate. Qed.

(* ================================================================= *)
(** ** Canned responses *)

Section CannedFacts.

Lemma find_id_some (cid : string) (K : list obj) (hit : obj) :
  find_id cid K = Some hit -> In hit K /\ id (snip hit) = cid.
Proof.
  unfold find_id. intros H. apply find_some in H. destruct H as [Hin Hid].
  split; [exact Hin | apply String.eqb_eq, Hid].
Qed.

Lemma nonempty_text_of (o : option obj) :
  nonempty (text_of o) = true ->
  exists k, o = Some k /\ text_of o = Some (text (snip k)).
Proof. destruct o as [k|]; [eauto | discriminate]. Qed.

(** The loop stops at the first entry that matches and whose snippet is
    found. *)
Lemma canned_loop_first (K : list obj) (q : string)
  (pre : list (list string * string)) (re : list string) (cid : string)
  (rest : list (list string * string)) (hit : obj) :
  (forall e, In e pre ->
     re_test (fst e) q = false \/ find_id (snd e) K = None) ->
  re_test re q = true ->
  find_id cid K = Some hit ->
  ChatGemini.canned_loop K q (pre ++ (re, cid) :: rest)%list
  = Some (ok_envelope (text (snip hit)) "high" [JStr cid]).
Proof.
  intros Hpre Hre Hfind. induction pre as [|[re' cid'] pre IH].
  - cbn [app ChatGemini.canned_loop]. rewrite Hre, Hfind. reflexivity.
  - cbn [app ChatGemini.canned_loop].
    assert (Hrest : forall e, In e pre ->
              re_test (fst e) q = false \/ find_id (snd e) K = None)
      by (intros e He; apply Hpre; right; exact He).
    destruct (Hpre (re', cid') (or_introl eq_refl)) as [H | H];
      cbn [fst snd] in H.
    + rewrite H. apply IH, Hrest.
    + rewrite H. destruct (re_test re' q); apply IH, Hrest.
Qed.

Lemma canned_loop_shape (K : list obj) (q : string)
  (table : list (list string * string)) (r : response) :
  ChatGemini.canned_loop K q table = Some r ->
  exists re cid hit,
    In (re, cid) table /\ re_test re q = true
    /\ find_id cid K = Some hit
    /\ r = ok_envelope (text (snip hit)) "high" [JStr cid].
Proof.
  induction table as [|[re cid] table IH]; [discriminate|].
  cbn [ChatGemini.canned_loop].
  destruct (re_test re q) eqn:Hre.
  - destruct (find_id cid K) as [hit|] eqn:Hf.
    + intros H. injection H as <-. exists re, cid, hit.
      repeat split; try assumption. left. reflexivity.
    + intros H. destruct (IH H) as [re' [cid' [hit' [Hin Hrest]]]].
      exists re', cid', hit'. split; [right; exact Hin | exact Hrest].
  - intros H. destruct (IH H) as [re' [cid' [hit' [Hin Hrest]]]].
    exists re', cid', hit'. split; [right; exact Hin | exact Hrest].
Qed.

(** Every answer of the chain in api/chat.js is the text of a snippet of
    the knowledge base, under that snippet's id; the interests entry may
    answer with the second personal snippet under the first one's id. *)
Lemma hf_canned_shape (KB : list snippet) (q : string) (r : response) :
  ChatHF.canned KB q = Some r ->
  exists k cid,
    In k (objects KB)
    /\ r = ok_envelope (text (snip k)) "high" [JStr cid]
    /\ (id (snip k) = cid
        \/ (cid = "KB_PERSONAL" /\ id (snip k) = "KB_PERSONAL2")).
Proof.
  unfold ChatHF.canned.
  repeat match goal with
  | |- (if nonempty (text_of (find_id ?c ?K)) && ?t then _ else _) = _ -> _ =>
      let E := fresh "E" in
      destruct (nonempty (text_of (find_id c K)) && t) eqn:E;
      [ apply andb_true_iff in E; destruct E as [E _];
        apply nonempty_text_of in E; destruct E as [k [Ek Et]];
        rewrite Et; intros H; injection H as <-;
        apply find_id_some in Ek; destruct Ek as [Hin Hid];
        exists k, c; repeat split; [exact Hin | left; exact Hid]
      | ]
  end.
  destruct (nonempty (text_of (find_id "KB_PERSONAL" (objects KB)))) eqn:P1;
    cbv iota.
  - rewrite P1. cbn [andb].
    match goal with |- (if ?b then _ else _) = _ -> _ => destruct b end;
      [|discriminate].
    apply nonempty_text_of in P1. destruct P1 as [k [Ek Et]].
    rewrite Et. intros H. injection H as <-.
    apply find_id_some in Ek. destruct Ek as [Hin Hid].
    exists k, "KB_PERSONAL". repeat split; [exact Hin | left; exact Hid].
  - destruct (nonempty (text_of (find_id "KB_PERSONAL2" (objects KB))))
      eqn:P2; cbn [andb]; cbv iota; [|discriminate].
    match goal with |- (if ?b then _ else _) = _ -> _ => destruct b end;
      [|discriminate].
    apply nonempty_text_of in P2. destruct P2 as [k [Ek Et]].
    rewrite Et. intros H. injection H as <-.
    apply find_id_some in Ek. destruct Ek as [Hin Hid].
    exists k, "KB_PERSONAL". repeat split; [exact Hin|].
    right. split; [reflexivity | exact Hid].
Qed.

Variable SYSTEM_PROMPT : string.
Variable JSON_parse : string -> option json.
Variables key mdl : envvar.
Variable KB : list snippet.
Variable req : request.
Variable text0 : string.
Hypothesis is_post : method req = "POST".
Hypothesis is_question : question (body_text req) = Some text0.

Lemma gemini_canned_responds (r : response) :
  ChatGemini.canned_loop (objects KB) (toLowerCase text0) ChatGemini.canned
  = Some r ->
  ChatGemini.handler SYSTEM_PROMPT JSON_parse key mdl KB req = Respond r.
Proof.
  intros H. unfold ChatGemini.handler.
  rewrite is_post, is_question. cbn [String.eqb negb].
  change (negb (String.eqb "POST" "POST")) with false. cbv iota.
  rewrite H. reflexivity.
Qed.

Lemma hf_canned_responds (r : response) :
  ChatHF.canned KB (toLowerCase text0) = Some r ->
  ChatHF.handler SYSTEM_PROMPT JSON_parse key mdl KB req = Respond r.
Proof.
  intros H. unfold ChatHF.handler.
  rewrite is_post, is_question.
  change (negb (String.eqb "POST" "POST")) with false. cbv iota.
  rewrite H. reflexivity.
Qed.

End CannedFacts.

Section EntryFacts.

(** The chain of api/chat.js is the table read from its first entry. *)
Lemma hf_canned_refines (KB : list snippet) (q : string) :
  ChatHF.canned KB q = first_entry (hf_canned_entries KB) q.
Proof. reflexivity. Qed.

Lemma first_entry_wins (q : string)
  (pre : list (list string * option string * string))
  (alts : list string) (t cid : string)
  (rest : list (list string * option string * string)) :
  (forall e, In e pre ->
     nonempty (snd (fst e)) = false \/ re_test (fst (fst e)) q = false) ->
  is_empty t = false ->
  re_test alts q = true ->
  first_entry (pre ++ (alts, Some t, cid) :: rest)%list q
  = Some (ok_envelope t "high" [JStr cid]).
Proof.
  intros Hpre Hne Hre. induction pre as [|[[alts' o'] cid'] pre IH].
  - cbn [app first_entry nonempty]. rewrite Hne, Hre. reflexivity.
  - cbn [app first_entry].
    replace (nonempty o' && re_test alts' q) with false.
    + apply IH. intros e He. apply Hpre. right. exact He.
    + symmetry. apply andb_false_iff.
      exact (Hpre (alts', o', cid') (or_introl eq_refl)).
Qed.

End EntryFacts.

(** C7 (as amended).  For a POST with a valid question, the first entry in
    table order whose pattern matches the lowercased question and whose
    text is available answers: the handler responds at once, without a
    model call, with that text verbatim, confidence high and the entry's id
    as the only source; a matching entry whose text is not available is
    passed over.  In the scored Gemini handler the text is available when
    a snippet with the entry's id is in the knowledge base, whatever its
    text.  In api/chat.js it is available when it is a non-empty string;
    it is the text of the snippet with the entry's id, except that the
    interests entry cites KB_PERSONAL and answers with the text of
    KB_PERSONAL or, when that is absent or empty, of KB_PERSONAL2. *)
Theorem canned_first_present_match_wins
  (SYSTEM_PROMPT : string) (JSON_parse : string -> option json)
  (key mdl : envvar) (KB : list snippet) (req : request) (text0 : string) :
  method req = "POST" ->
  question (body_text req) = Some text0 ->
  (forall pre re cid rest hit,
      ChatGemini.canned = (pre ++ (re, cid) :: rest)%list ->
      (forall e, In e pre ->
         re_test (fst e) (toLowerCase text0) = false
         \/ find_id (snd e) (objects KB) = None) ->
      re_test re (toLowerCase text0) = true ->
      find_id cid (objects KB) = Some hit ->
      ChatGemini.handler SYSTEM_PROMPT JSON_parse key mdl KB req
      = Respond (ok_envelope (text (snip hit)) "high" [JStr cid]))
  /\ (forall pre alts t cid rest,
        hf_canned_entries KB = (pre ++ (alts, Some t, cid) :: rest)%list ->
        (forall e, In e pre ->
           nonempty (snd (fst e)) = false
           \/ re_test (fst (fst e)) (toLowerCase text0) = false) ->
        is_empty t = false ->
        re_test alts (toLowerCase text0) = true ->
        ChatHF.handler SYSTEM_PROMPT JSON_parse key mdl KB req
        = Respond (ok_envelope t "high" [JStr cid]))
  /\ (forall hit,
        find_id "KB_LIFE" (objects KB) = Some hit ->
        is_empty (text (snip hit)) = false ->
        re_test life_alts (toLowerCase text0) = true ->
        ChatHF.handler SYSTEM_PROMPT JSON_parse key mdl KB req
        = Respond (ok_envelope (text (snip hit)) "high" [JStr "KB_LIFE"]))
  /\ (forall r,
        ChatHF.canned KB (toLowerCase text0) = Some r ->
        ChatHF.handler SYSTEM_PROMPT JSON_parse key mdl KB req = Respond r
        /\ exists k cid,
             In k (objects KB)
             /\ r = ok_envelope (text (snip k)) "high" [JStr cid]
             /\ (id (snip k) = cid
                 \/ (cid = "KB_PERSONAL" /\ id (snip k) = "KB_PERSONAL2"))).
Proof.
  intros Hpost Hq. split; [|split; [|split]].
  - intros pre re cid rest hit Htab Hpre Hre Hfind.
    apply (gemini_canned_responds _ _ _ _ _ _ _ Hpost Hq).
    rewrite Htab. apply canned_loop_first; assumption.
  - intros pre alts t cid rest Htab Hpre Hne Hre.
    apply (hf_canned_responds _ _ _ _ _ _ _ Hpost Hq).
    rewrite hf_canned_refines, Htab. apply first_entry_wins; assumption.
  - intros hit Hfind Hne Hre.
    apply (hf_canned_responds _ _ _ _ _ _ _ Hpost Hq).
    unfold ChatHF.canned. rewrite Hfind. cbn [text_of option_map nonempty].
    rewrite Hne. fold life_alts. rewrite Hre. reflexivity.
  - intros r Hr. split.
    + apply (hf_canned_responds _ _ _ _ _ _ _ Hpost Hq), Hr.
    + apply hf_canned_shape with (q := toLowerCase text0), Hr.
Qed.

Lemma canned_first_present_match_wins_witness :
  ChatGemini.handler Sample.SYSTEM_PROMPT Sample.parse None None
    ChatGemini.inline_kb (post "What should we know about your life story?")
  = Respond
      (ok_envelope
         "I am Nitya, a fourth-year engineering student from Bengaluru with a creative mindset; I build frontends and explore AI/ML."
         "high" [JStr "KB_LIFE"])
  /\ ChatHF.handler Sample.SYSTEM_PROMPT Sample.parse None None
       ChatHF.inline_kb (post "Where do you want to GROW?")
     = Respond
         (ok_envelope
            "Wants to grow in backend systems & deployments, advanced ML/LLM tooling and RAG, and system design."
            "high" [JStr "KB_GROW"]).
Proof.
  split.
  - exact (proj1 (canned_first_present_match_wins
                    Sample.SYSTEM_PROMPT Sample.parse None None
                    ChatGemini.inline_kb
                    (post "What should we know about your life story?")
                    "What should we know about your life story?"
                    eq_refl eq_refl)
             [] life_alts "KB_LIFE" (tl ChatGemini.canned)
             {| addr := KbRef 0;
                snip := hd {| id := EmptyString; text := EmptyString |}
                           ChatGemini.inline_kb;
                score := None |}
             eq_refl (fun e H => match H with end) eq_refl eq_refl).
  - apply (proj1 (proj2 (canned_first_present_match_wins
                           Sample.SYSTEM_PROMPT Sample.parse None None
                           ChatHF.inline_kb
                           (post "Where do you want to GROW?")
                           "Where do you want to GROW?" eq_refl eq_refl))
             (firstn 2 (hf_canned_entries ChatHF.inline_kb))
             ["top 3"; "areas to grow"; "grow"; "improve";
              "where do you want to grow"]
             "Wants to grow in backend systems & deployments, advanced ML/LLM tooling and RAG, and system design."
             "KB_GROW"
             (skipn 3 (hf_canned_entries ChatHF.inline_kb)));
      try reflexivity.
    intros e H. vm_compute in H.
    destruct H as [<-|[<-|[]]]; right; reflexivity.
Defined.

(** An entry of api/chat.js with an empty or absent text is passed over,
    and the interests entry answers with the second personal snippet under
    the first one's id. *)
Lemma hf_entry_passed_over :
  ChatHF.handler Sample.SYSTEM_PROMPT Sample.parse None None
    [ {| id := "KB_LIFE"; text := EmptyString |};
      {| id := "KB_PERSONAL2"; text := "I crochet." |} ]
    (post "who are you, and what are your hobbies?")
  = Respond (ok_envelope "I crochet." "high" [JStr "KB_PERSONAL"]).
Proof. reflexivity. Qed.

(** The same scenario on api/chat.js with its inline knowledge base. *)
Lemma life_story_scenario_hf :
  ChatHF.handler Sample.SYSTEM_PROMPT Sample.parse None None
    ChatHF.inline_kb (post "What should we know about your life story?")
  = Respond
      (ok_envelope
         "I am a fourth-year engineering student from Bengaluru who blends design and code."
         "high" [JStr "KB_LIFE"]).
Proof. reflexivity. Qed.

(** Table order decides between two matching patterns, and an entry whose
    snippet is absent is passed over. *)
Lemma canned_table_order :
  ChatGemini.handler Sample.SYSTEM_PROMPT Sample.parse None None
    ChatGemini.inline_kb (post "my superpower and life story")
  = Respond
      (ok_envelope
         "I am Nitya, a fourth-year engineering student from Bengaluru with a creative mindset; I build frontends and explore AI/ML."
         "high" [JStr "KB_LIFE"])
  /\ ChatGemini.handler Sample.SYSTEM_PROMPT Sample.parse None None
       (tl ChatGemini.inline_kb) (post "my superpower and life story")
     = Respond
         (ok_envelope
            "Superpower: creative problem solving combining UI/UX thinking with engineering to quickly prototype useful products."
            "high" [JStr "KB_SUPERPOWER"]).
Proof. split; vm_compute; reflexivity. Qed.

(** C7 (as stated) fails: on api/chat.js with its inline knowledge base the
    question matches the interests pattern, yet no canned answer is given
    and the model is called. *)
Lemma canned_match_not_answered :
  re_test ["interests"; "hobbies"; "outside of work"; "what do you like"]
          (toLowerCase "what are your hobbies") = true
  /\ ChatHF.canned ChatHF.inline_kb (toLowerCase "what are your hobbies")
     = None
  /\ exists c,
       ChatHF.handler Sample.SYSTEM_PROMPT Sample.parse
         (Some "token") (Some "model") ChatHF.inline_kb
         (post "what are your hobbies")
       = Upstream c (ChatHF.finish Sample.parse).
Proof.
  split; [reflexivity|]. split; [reflexivity|].
  eexists. vm_compute. reflexivity.
Qed.

(** C9.  A canned answer is never cut: whenever the canned path answers,
    the answer is the whole text of a snippet of the knowledge base,
    whatever its length; the 2000 cap is applied to model output only. *)
Theorem canned_answer_not_truncated
  (SYSTEM_PROMPT : string) (JSON_parse : string -> option json)
  (key mdl : envvar) (KB : list snippet) (req : request) (text0 : string) :
  method req = "POST" ->
  question (body_text req) = Some text0 ->
  (forall r,
     ChatGemini.canned_loop (objects KB) (toLowerCase text0)
       ChatGemini.canned = Some r ->
     ChatGemini.handler SYSTEM_PROMPT JSON_parse key mdl KB req = Respond r
     /\ exists k,
          In k (objects KB)
          /\ payload r
             = Envelope (text (snip k)) "high" [JStr (id (snip k))])
  /\ (forall r,
        ChatHF.canned KB (toLowerCase text0) = Some r ->
        ChatHF.handler SYSTEM_PROMPT JSON_parse key mdl KB req = Respond r
        /\ exists k cid,
             In k (objects KB)
             /\ payload r = Envelope (text (snip k)) "high" [JStr cid]).
Proof.
  intros Hpost Hq. split; intros r Hr; split.
  - apply (gemini_canned_responds _ _ _ _ _ _ _ Hpost Hq), Hr.
  - apply canned_loop_shape in Hr.
    destruct Hr as [re [cid [hit [_ [_ [Hf ->]]]]]].
    apply find_id_some in Hf. destruct Hf as [Hin <-].
    exists hit. split; [exact Hin | reflexivity].
  - apply (hf_canned_responds _ _ _ _ _ _ _ Hpost Hq), Hr.
  - apply hf_canned_shape in Hr.
    destruct Hr as [k [cid [Hin [-> _]]]].
    exists k, cid. split; [exact Hin | reflexivity].
Qed.

Lemma canned_answer_not_truncated_witness :
  exists r a c s,
    ChatGemini.handler Sample.SYSTEM_PROMPT Sample.parse None None
      Sample.long_kb (post "who are you") = Respond r
    /\ payload r = Envelope a c s
    /\ String.length a = 2500.
Proof.
  destruct (proj1 (canned_answer_not_truncated
                     Sample.SYSTEM_PROMPT Sample.parse None None
                     Sample.long_kb (post "who are you") "who are you"
                     eq_refl eq_refl)
              _ eq_refl) as [E _].
  eexists _, _, _, _. split; [exact E|]. split; reflexivity.
Defined.

(* ================================================================= *)
(** ** Responses of the chat handlers *)

Section HandlerFacts.

Variable SYSTEM_PROMPT : string.
Variable JSON_parse : string -> option json.

Lemma canned_loop_invariant (K : list obj) (q : string)
  (table : list (list string * string)) (r : response) :
  ChatGemini.canned_loop K q table = Some r -> envelope_invariant r.
Proof.
  intros H. apply canned_loop_shape in H.
  destruct H as [re [cid [hit [_ [_ [_ ->]]]]]]. exact I.
Qed.

Lemma hf_canned_invariant (KB : list snippet) (q : string) (r : response) :
  ChatHF.canned KB q = Some r -> envelope_invariant r.
Proof.
  intros H. apply hf_canned_shape in H.
  destruct H as [k [cid [_ [-> _]]]]. exact I.
Qed.

Lemma hf_handler_invariant (tok mdl : envvar) (KB : list snippet)
  (req : request) :
  all_responses envelope_invariant
    (ChatHF.handler SYSTEM_PROMPT JSON_parse tok mdl KB req).
Proof.
  unfold ChatHF.handler.
  destruct (negb (String.eqb (method req) "POST")); [exact I|].
  destruct (question (body_text req)) as [text0|]; [|exact I].
  destruct (ChatHF.canned KB (toLowerCase text0)) as [r|] eqn:C.
  { exact (hf_canned_invariant _ _ _ C). }
  destruct (sources (ChatHF.buildContext text0 KB)); [reflexivity|].
  destruct (negb (env_set tok) || negb (env_set mdl)); [exact I|].
  intros [e|b|g]; cbn [all_responses ChatHF.finish]; try exact I.
  apply parse_generated_invariant.
Qed.

Lemma gemini_handler_invariant (key mdl : envvar) (KB : list snippet)
  (req : request) :
  all_responses envelope_invariant
    (ChatGemini.handler SYSTEM_PROMPT JSON_parse key mdl KB req).
Proof.
  unfold ChatGemini.handler.
  destruct (negb (String.eqb (method req) "POST")); [exact I|].
  destruct (question (body_text req)) as [text0|]; [|exact I].
  destruct (ChatGemini.canned_loop _ _ _) as [r|] eqn:C.
  { exact (canned_loop_invariant _ _ _ _ C). }
  destruct (sources (ChatGemini.buildContext text0 KB _)); [reflexivity|].
  destruct (negb (env_set key)); [exact I|].
  intros [e|g]; cbn [all_responses ChatGemini.finish]; try exact I.
  apply parse_generated_invariant.
Qed.

Lemma question_none (v : jsval) :
  question v = None <->
  (forall s, v = Some (JStr s) -> trim s = EmptyString).
Proof.
  split.
  - destruct v as [[| | |s| |]|]; try discriminate. cbn [question].
    destruct (is_empty s) eqn:E; cbn [orb].
    + intros _ s' H. injection H as <-.
      apply is_empty_true in E. subst s. reflexivity.
    + destruct (trim s) eqn:T; [|discriminate].
      intros _ s' H. injection H as <-. exact T.
  - destruct v as [[| | |s| |]|]; try reflexivity. intros H.
    cbn [question]. rewrite (H s eq_refl). cbn.
    rewrite orb_true_r. reflexivity.
Qed.

End HandlerFacts.

(** C4.  Every response of the chat handlers that carries an envelope with
    empty sources has confidence low: on the canned path, on the
    empty-context short cut, for parsed model output and for the fallback. *)
Theorem empty_sources_low_confidence
  (SYSTEM_PROMPT : string) (JSON_parse : string -> option json)
  (key mdl : envvar) (KB : list snippet) (req : request) :
  all_responses envelope_invariant
    (ChatHF.handler SYSTEM_PROMPT JSON_parse key mdl KB req)
  /\ all_responses envelope_invariant
       (ChatGemini.handler SYSTEM_PROMPT JSON_parse key mdl KB req).
Proof.
  split; [apply hf_handler_invariant | apply gemini_handler_invariant].
Qed.

(** The converse does not hold: sources may be present with confidence
    medium or low. *)
Lemma confidence_converse_not_enforced :
  coerce (JObj [("answer", JStr "hi"); ("confidence", JStr "low");
                ("sources", JArr [JStr "KB_LIFE"])])
  = Some (ok_envelope "hi" "low" [JStr "KB_LIFE"]).
Proof. reflexivity. Qed.

(** C8 (as amended).  api/chat.js answers 405 to every method but POST;
    400 to a POST whose text is missing, not a string, or blank after
    trimming; otherwise 200 with the canned answer or the empty-context
    answer, whether or not the configuration is present; otherwise 500
    when the token or the model name is not set; otherwise it calls the
    model and answers 500 when the call throws, 502 when the upstream
    status is not a success, and 200 with an envelope for generated
    text. *)
Theorem chat_status_codes
  (SYSTEM_PROMPT : string) (JSON_parse : string -> option json)
  (tok mdl : envvar) (KB : list snippet) (req : request) :
  let run := ChatHF.handler SYSTEM_PROMPT JSON_parse tok mdl KB req in
  (method req <> "POST" ->
   run = Respond (json_error 405 "Method not allowed"))
  /\ (method req = "POST" ->
      (forall s, body_text req = Some (JStr s) -> trim s = EmptyString) ->
      run = Respond (json_error 400 "No question text provided"))
  /\ (forall text0,
        method req = "POST" ->
        question (body_text req) = Some text0 ->
        (forall r, ChatHF.canned KB (toLowerCase text0) = Some r ->
                   run = Respond r /\ status r = 200)
        /\ (ChatHF.canned KB (toLowerCase text0) = None ->
            (sources (ChatHF.buildContext text0 KB) = [] ->
             run = Respond (ok_envelope no_info "low" []))
            /\ (sources (ChatHF.buildContext text0 KB) <> [] ->
                (env_set tok && env_set mdl = false ->
                 exists msg, run = Respond (json_error 500 msg))
                /\ (env_set tok && env_set mdl = true ->
                    exists c,
                      run = Upstream c (ChatHF.finish JSON_parse)
                      /\ (forall e,
                            status (ChatHF.finish JSON_parse
                                      (ChatHF.HfThrows e)) = 500)
                      /\ (forall b,
                            status (ChatHF.finish JSON_parse
                                      (ChatHF.HfNotOk b)) = 502)
                      /\ (forall g, exists a c0 s,
                            ChatHF.finish JSON_parse (ChatHF.HfOk g)
                            = ok_envelope a c0 s))))).
Proof.
  intros run. subst run. unfold ChatHF.handler. split; [|split].
  - intros H. apply String.eqb_neq in H. rewrite H. reflexivity.
  - intros -> H. apply question_none in H. rewrite H. reflexivity.
  - intros text0 -> ->.
    change (negb (String.eqb "POST" "POST")) with false. cbv iota.
    split.
    + intros r Hr. rewrite Hr. split; [reflexivity|].
      apply hf_canned_shape in Hr. destruct Hr as [k [cid [_ [-> _]]]].
      reflexivity.
    + intros ->. split; [intros ->; reflexivity|].
      intros Hne.
      destruct (sources (ChatHF.buildContext text0 KB)) as [|x l] eqn:S;
        [congruence|].
      split.
      * intros Hcfg. eexists.
        replace (negb (env_set tok) || negb (env_set mdl)) with true;
          [reflexivity|].
        rewrite <- negb_andb, Hcfg. reflexivity.
      * intros Hcfg. eexists.
        replace (negb (env_set tok) || negb (env_set mdl)) with false
          by (rewrite <- negb_andb, Hcfg; reflexivity).
        split; [reflexivity|]. split; [reflexivity|].
        split; [reflexivity|].
        intros g. apply parse_generated_200.
Qed.

Lemma chat_status_codes_witness :
  ChatHF.handler Sample.SYSTEM_PROMPT Sample.parse None None
    ChatHF.inline_kb {| method := "GET"; body_text := None |}
  = Respond (json_error 405 "Method not allowed")
  /\ ChatHF.handler Sample.SYSTEM_PROMPT Sample.parse None None
       ChatHF.inline_kb (post "design")
     = Respond (json_error 500
         "Server not configured: set HF_API_TOKEN and HF_MODEL in env vars.").
Proof.
  split.
  - apply (proj1 (chat_status_codes Sample.SYSTEM_PROMPT Sample.parse
                    None None ChatHF.inline_kb
                    {| method := "GET"; body_text := None |})).
    discriminate.
  - destruct (proj2 (proj2 (chat_status_codes Sample.SYSTEM_PROMPT
                              Sample.parse None None ChatHF.inline_kb
                              (post "design")))
                "design" eq_refl eq_refl) as [_ H].
    destruct (H eq_refl) as [_ H1].
    destruct H1 as [H1 _]; [vm_compute; discriminate|].
    destruct (H1 eq_refl) as [msg E]. rewrite E.
    vm_compute in E. injection E as <-. reflexivity.
Defined.

(** C8 (as stated) fails: with no API key configured a canned question is
    answered with 200, not 500. *)
Lemma canned_answer_without_api_key :
  exists r,
    ChatHF.handler Sample.SYSTEM_PROMPT Sample.parse None None
      ChatHF.inline_kb (post "who are you") = Respond r
    /\ status r = 200 /\ status r <> 500.
Proof. eexists. split; [reflexivity|]. split; [reflexivity|discriminate]. Qed.

(** A blank text is a non-empty string, yet the answer is 400. *)
Lemma blank_text_rejected :
  ChatHF.handler Sample.SYSTEM_PROMPT Sample.parse (Some "token")
    (Some "model") ChatHF.inline_kb (post "   ")
  = Respond (json_error 400 "No question text provided").
Proof. reflexivity. Qed.

(* ================================================================= *)
(** ** Retrieval *)

Section RetrievalFacts.

Lemma same_ref_eq (a b : ref) : same_ref a b = true <-> a = b.
Proof.
  destruct a as [i|i], b as [j|j]; cbn [same_ref];
    try (split; [discriminate | congruence]);
    rewrite Nat.eqb_eq; split; congruence.
Qed.

Lemma same_ref_neq (a b : ref) : same_ref a b = false <-> a <> b.
Proof.
  rewrite <- same_ref_eq. destruct (same_ref a b); split; congruence.
Qed.

(** The objects of an array have pairwise distinct addresses. *)
Lemma objects_from_addr (i : nat) (kb : list snippet) :
  map addr (objects_from i kb) = map KbRef (seq i (List.length kb)).
Proof.
  revert i. induction kb as [|s kb IH]; intros i; [reflexivity|].
  cbn [objects_from map List.length seq addr]. rewrite IH. reflexivity.
Qed.

Lemma NoDup_map_injective {A B : Type} (f : A -> B) (l : list A) :
  (forall x y, In x l -> In y l -> f x = f y -> x = y) ->
  NoDup l -> NoDup (map f l).
Proof.
  induction l as [|x l IH]; intros Hf H; [constructor|].
  inversion H as [|? ? Hx Hl]; subst. cbn [map]. constructor.
  - intros Hin. apply in_map_iff in Hin. destruct Hin as [y [E Hy]].
    apply Hx. rewrite <- (Hf y x); [exact Hy | right; exact Hy
                                   | left; reflexivity | exact E].
  - apply IH; [|exact Hl]. intros a b Ha Hb. apply Hf; right; assumption.
Qed.

Lemma objects_NoDup (kb : list snippet) : NoDup (map addr (objects kb)).
Proof.
  unfold objects. rewrite objects_from_addr.
  apply NoDup_map_injective; [|apply seq_NoDup].
  intros x y _ _ H. congruence.
Qed.

Lemma objects_from_snip (i : nat) (kb : list snippet) :
  map snip (objects_from i kb) = kb.
Proof.
  revert i. induction kb as [|s kb IH]; intros i; [reflexivity|].
  cbn [objects_from map snip]. rewrite IH. reflexivity.
Qed.

(** Filtering keeps addresses distinct. *)
Lemma filter_distinct (keep : obj -> bool) (objs : list obj) :
  NoDup (map addr objs) -> NoDup (map addr (filter keep objs)).
Proof.
  induction objs as [|o objs IH]; cbn [map filter]; intros H; [constructor|].
  inversion H as [|? ? Ho Hrest]; subst.
  destruct (keep o); [|apply IH, Hrest].
  cbn [map]. constructor; [|apply IH, Hrest].
  intros Hin. apply Ho. apply in_map_iff in Hin.
  destruct Hin as [y [Hy Hyin]]. apply filter_In in Hyin.
  apply in_map_iff. exists y. tauto.
Qed.

Lemma NoDup_map_inj_in {A B : Type} (f : A -> B) (l : list A) (x y : A) :
  NoDup (map f l) -> In x l -> In y l -> f x = f y -> x = y.
Proof.
  induction l as [|z l IH]; cbn [map]; intros H Hx Hy E; [contradiction|].
  inversion H as [|? ? Hz Hl]; subst.
  destruct Hx as [<-|Hx], Hy as [<-|Hy]; try reflexivity.
  - exfalso. apply Hz. rewrite E. apply in_map, Hy.
  - exfalso. apply Hz. rewrite <- E. apply in_map, Hx.
  - apply IH; assumption.
Qed.

(** A list of objects with distinct addresses, none of them seen before,
    passes through the set unchanged. *)
Lemma dedup_fixed (seen l : list obj) :
  NoDup (map addr l) ->
  (forall x y, In x l -> In y seen -> addr x <> addr y) ->
  dedup same_obj seen l = l.
Proof.
  revert seen. induction l as [|x l IH]; intros seen H Hs; [reflexivity|].
  cbn [dedup]. inversion H as [|? ? Hx Hl]; subst.
  replace (existsb (same_obj x) seen) with false.
  - f_equal. apply IH; [exact Hl|].
    intros a b Ha [<-|Hb].
    + intros E. apply Hx. rewrite <- E. apply in_map, Ha.
    + apply Hs; [right; exact Ha | exact Hb].
  - symmetry. apply not_true_is_false. intros E.
    apply existsb_exists in E. destruct E as [y [Hy Hxy]].
    apply same_ref_eq in Hxy. exact (Hs x y (or_introl eq_refl) Hy Hxy).
Qed.

Lemma new_Set_fixed (l : list obj) :
  NoDup (map addr l) -> new_Set same_obj l = l.
Proof. intros H. apply dedup_fixed; [exact H | intros x y _ []]. Qed.

Lemma dedup_In (seen l : list obj) (x : obj) :
  In x (dedup same_obj seen l) -> In x l.
Proof.
  revert seen. induction l as [|y l IH]; intros seen; [trivial|].
  cbn [dedup]. destruct (existsb (same_obj y) seen).
  - intros H. right. exact (IH _ H).
  - intros [<-|H]; [left; reflexivity | right; exact (IH _ H)].
Qed.

(** What leaves the set has distinct addresses, all of them unseen. *)
Lemma dedup_NoDup (seen l : list obj) :
  NoDup (map addr (dedup same_obj seen l))
  /\ (forall x y, In x (dedup same_obj seen l) -> In y seen ->
                  addr x <> addr y).
Proof.
  revert seen. induction l as [|x l IH]; intros seen.
  - split; [constructor | intros ? ? []].
  - cbn [dedup]. destruct (existsb (same_obj x) seen) eqn:E; [apply IH|].
    destruct (IH (x :: seen)) as [N U]. split.
    + cbn [map]. constructor; [|exact N].
      intros Hin. apply in_map_iff in Hin. destruct Hin as [y [Hy Hyin]].
      exact (U y x Hyin (or_introl eq_refl) Hy).
    + intros a b [<-|Ha] Hb.
      * intros Hab. apply not_true_iff_false in E. apply E.
        apply existsb_exists. exists b. split; [exact Hb|].
        apply same_ref_eq, Hab.
      * apply U; [exact Ha | right; exact Hb].
Qed.

Lemma find_id_In (cid : string) (K : list obj) (k : obj) :
  find_id cid K = Some k -> In k K.
Proof. intros H. apply find_id_some in H. apply H. Qed.

Lemma hf_anchors_In (kb : list snippet) (k : obj) :
  In k (ChatHF.anchors kb) -> In k (objects kb).
Proof.
  unfold ChatHF.anchors, somes. cbn [flat_map].
  destruct (find_id "KB_LIFE" (objects kb)) as [a|] eqn:A;
  destruct (find_id "KB_SUPERPOWER" (objects kb)) as [b|] eqn:B;
    cbn [app In]; intros H;
    repeat match goal with
    | H : _ \/ _ |- _ => destruct H as [H|H]
    | H : False |- _ => contradiction
    end; subst; eauto using find_id_In.
Qed.

Lemma hf_anchors_NoDup (kb : list snippet) :
  NoDup (map addr (ChatHF.anchors kb)).
Proof.
  unfold ChatHF.anchors, somes. cbn [flat_map].
  destruct (find_id "KB_LIFE" (objects kb)) as [a|] eqn:A;
  destruct (find_id "KB_SUPERPOWER" (objects kb)) as [b|] eqn:B;
    cbn [app map]; repeat constructor; cbn [In]; try tauto.
  intros [E|[]].
  apply find_id_some in A, B. destruct A as [Ain Aid], B as [Bin Bid].
  assert (a = b)
    by (apply (NoDup_map_inj_in addr (objects kb));
        auto using objects_NoDup).
  subst b. rewrite Aid in Bid. discriminate.
Qed.

Lemma gemini_anchors_NoDup (kb : list snippet) :
  NoDup (map addr (ChatGemini.anchors kb)).
Proof. apply filter_distinct, objects_NoDup. Qed.

Lemma tok_hits_short (t tok : string) :
  String.length tok <= 2 -> tok_hits t tok = false.
Proof.
  intros H. unfold tok_hits.
  replace (2 <? String.length tok) with false; [reflexivity|].
  symmetry. apply Nat.ltb_ge, H.
Qed.

Lemma filter_none {A : Type} (p : A -> bool) (l : list A) :
  (forall x, In x l -> p x = false) -> filter p l = [].
Proof.
  induction l as [|x l IH]; intros H; [reflexivity|].
  cbn [filter]. rewrite (H x (or_introl eq_refl)).
  apply IH. intros y Hy. apply H. right. exact Hy.
Qed.

Lemma existsb_none {A : Type} (p : A -> bool) (l : list A) :
  (forall x, In x l -> p x = false) -> existsb p l = false.
Proof.
  induction l as [|x l IH]; intros H; [reflexivity|].
  cbn [existsb]. rewrite (H x (or_introl eq_refl)).
  apply IH. intros y Hy. apply H. right. exact Hy.
Qed.

End RetrievalFacts.

Section ContextFacts.

Lemma objects_ids (kb : list snippet) :
  map (fun k => id (snip k)) (objects kb) = map id kb.
Proof.
  rewrite <- (objects_from_snip 0 kb) at 2. rewrite map_map. reflexivity.
Qed.

Lemma dedup_app (seen l1 l2 : list obj) :
  dedup same_obj seen (l1 ++ l2)
  = (dedup same_obj seen l1
     ++ dedup same_obj (rev (dedup same_obj seen l1) ++ seen) l2)%list.
Proof.
  revert seen. induction l1 as [|x l1 IH]; intros seen; [reflexivity|].
  cbn [app dedup]. destruct (existsb (same_obj x) seen); [apply IH|].
  cbn [app rev]. rewrite IH, <- app_assoc. reflexivity.
Qed.

(** In api/chat.js the selection starts with the anchors and lists every
    snippet id at most once, provided the ids of the knowledge base are
    unique. *)
Lemma hf_sources_anchors_first (query : string) (kb : list snippet) :
  exists rest,
    sources (ChatHF.buildContext query kb)
    = (map (fun k => id (snip k)) (ChatHF.anchors kb) ++ rest)%list.
Proof.
  unfold ChatHF.buildContext, ChatHF.selected, new_Set. cbn [sources].
  rewrite dedup_app, map_app.
  fold (new_Set same_obj (ChatHF.anchors kb)).
  rewrite (new_Set_fixed _ (hf_anchors_NoDup kb)). eauto.
Qed.

Lemma hf_selected_In (query : string) (kb : list snippet) (k : obj) :
  In k (ChatHF.selected query kb) -> In k (objects kb).
Proof.
  unfold ChatHF.selected, new_Set. intros H. apply dedup_In in H.
  apply in_app_or in H. destruct H as [H|H]; [exact (hf_anchors_In _ _ H)|].
  unfold ChatHF.hits, new_Set in H. apply dedup_In in H.
  apply filter_In in H. apply H.
Qed.

Lemma hf_sources_no_duplicates (query : string) (kb : list snippet) :
  NoDup (map id kb) ->
  NoDup (sources (ChatHF.buildContext query kb)).
Proof.
  intros Hids. unfold ChatHF.buildContext. cbn [sources].
  assert (Haddr : NoDup (map addr (ChatHF.selected query kb)))
    by apply dedup_NoDup.
  apply NoDup_map_injective; [|exact (NoDup_map_inv _ _ Haddr)].
  intros x y Hx Hy E.
  apply (NoDup_map_inj_in (fun k => id (snip k)) (objects kb));
    [rewrite objects_ids; exact Hids | | | exact E];
    eapply hf_selected_In; eassumption.
Qed.

Lemma gemini_sources (query : string) (kb : list snippet) (n : nat) :
  sources (ChatGemini.buildContext query kb n)
  = map (fun k => id (snip k)) (ChatGemini.merged query kb n).
Proof.
  unfold ChatGemini.buildContext.
  destruct (ChatGemini.merged query kb n); reflexivity.
Qed.

End ContextFacts.

(** C1.  The scored retrieval lists an anchor twice when it also scores:
    for the question "nitya" and the inline knowledge base the life and
    architecture snippets are anchors and scored hits, and both ids occur
    twice in the sources. *)
Theorem gemini_anchor_listed_twice :
  sources (ChatGemini.buildContext "nitya" ChatGemini.inline_kb
             ChatGemini.default_maxChunks)
  = ["KB_LIFE"; "KB_SKILLS"; "KB_ARCHITECTURE"; "KB_SUPERPOWER";
     "KB_LIFE"; "KB_ARCHITECTURE"]
  /\ ~ NoDup (sources (ChatGemini.buildContext "nitya"
                         ChatGemini.inline_kb ChatGemini.default_maxChunks)).
Proof.
  assert (E : sources (ChatGemini.buildContext "nitya" ChatGemini.inline_kb
                         ChatGemini.default_maxChunks)
              = ["KB_LIFE"; "KB_SKILLS"; "KB_ARCHITECTURE"; "KB_SUPERPOWER";
                 "KB_LIFE"; "KB_ARCHITECTURE"])
    by (vm_compute; reflexivity).
  split; [exact E|]. rewrite E. intros H.
  inversion H as [|? ? Hnot _]; subst. apply Hnot. cbn [In]. tauto.
Qed.

(** The question reaches the retrieval: no canned pattern matches it, and
    the prompt sent to the model repeats the two snippets. *)
Lemma nitya_reaches_retrieval :
  ChatGemini.canned_loop (objects ChatGemini.inline_kb)
    (toLowerCase "nitya") ChatGemini.canned = None
  /\ map addr (ChatGemini.merged "nitya" ChatGemini.inline_kb 5)
     = [KbRef 0; KbRef 2; KbRef 3; KbRef 9; CopyRef 0; CopyRef 3].
Proof. split; vm_compute; reflexivity. Qed.

(** C2 (as amended).  When every token of the query has at most two code
    units, no snippet scores in either retrieval, and the sources are
    exactly the anchors. *)
Theorem short_tokens_score_nothing
  (query : string) (kb : list snippet) (maxChunks : nat) :
  (forall tok, In tok (tokens query) -> String.length tok <= 2) ->
  ChatGemini.scored query kb = []
  /\ sources (ChatGemini.buildContext query kb maxChunks)
     = map (fun k => id (snip k)) (ChatGemini.anchors kb)
  /\ ChatHF.hits query kb = []
  /\ sources (ChatHF.buildContext query kb)
     = map (fun k => id (snip k)) (ChatHF.anchors kb).
Proof.
  intros Hshort.
  assert (Hno : forall t tok, In tok (tokens query) -> tok_hits t tok = false)
    by (intros t tok Hin; apply tok_hits_short, Hshort, Hin).
  assert (Hs : ChatGemini.scored query kb = []).
  { unfold ChatGemini.scored. rewrite filter_none; [reflexivity|].
    intros x Hx. apply in_map_iff in Hx. destruct Hx as [item [<- _]].
    unfold score_of, with_score, ChatGemini.item_score. cbn [score].
    rewrite filter_none; [reflexivity|]. intros tok. apply Hno. }
  assert (Hh : ChatHF.hits query kb = []).
  { unfold ChatHF.hits. rewrite filter_none; [reflexivity|].
    intros item _. apply existsb_none. intros tok. apply Hno. }
  split; [exact Hs|]. split; [|split; [exact Hh|]].
  - rewrite gemini_sources. unfold ChatGemini.merged.
    rewrite Hs, firstn_nil, app_nil_r.
    rewrite (new_Set_fixed _ (gemini_anchors_NoDup kb)). reflexivity.
  - unfold ChatHF.buildContext, ChatHF.selected. cbn [sources].
    rewrite Hh, app_nil_r.
    rewrite (new_Set_fixed _ (hf_anchors_NoDup kb)). reflexivity.
Qed.

Lemma short_tokens_score_nothing_witness :
  sources (ChatGemini.buildContext "is it ok" ChatGemini.inline_kb 5)
  = map (fun k => id (snip k)) (ChatGemini.anchors ChatGemini.inline_kb).
Proof.
  apply (short_tokens_score_nothing "is it ok" ChatGemini.inline_kb 5).
  intros tok H. vm_compute in H.
  repeat (destruct H as [<-|H]; [vm_compute; lia|]). contradiction.
Defined.

(** C2 (as stated) fails: the only token of "rag" has three code units,
    and four snippets score on it. *)
Lemma three_letter_token_scores :
  tokens "rag" = ["rag"]
  /\ map (fun k => (id (snip k), score k))
         (ChatGemini.scored "rag" ChatGemini.inline_kb)
     = [("KB_ARCHITECTURE", Some 1); ("KB_PROJECT_OVABLOOM", Some 1);
        ("KB_GROW", Some 1); ("KB_TOOLING", Some 1)]
  /\ sources (ChatGemini.buildContext "rag" ChatGemini.inline_kb 5)
     <> map (fun k => id (snip k)) (ChatGemini.anchors ChatGemini.inline_kb)
  /\ sources (ChatHF.buildContext "rag" ChatHF.inline_kb)
     = ["KB_LIFE"; "KB_SUPERPOWER"; "KB_GROW"].
Proof.
  split; [reflexivity|]. split; [vm_compute; reflexivity|].
  split; [vm_compute; discriminate | vm_compute; reflexivity].
Qed.

(* ================================================================= *)
(** * Further properties of the handlers *)

(** ** The brace match *)

Section BraceFacts.

Lemma all_chars_suffix (P : ascii -> bool) (s t : string) :
  all_chars P (s ++ t) = true -> all_chars P t = true.
Proof.
  rewrite all_chars_app. intros H. apply andb_true_iff in H. apply H.
Qed.

Lemma through_last_close_none (s : string) :
  through_last_close s = None -> all_chars (not_char "}") s = true.
Proof.
  induction s as [|c s IH]; [reflexivity|]. cbn [through_last_close].
  destruct (through_last_close s); [discriminate|].
  unfold not_char at 1. cbn [all_chars].
  destruct (Ascii.eqb c "}"); [discriminate|].
  intros _. apply IH. reflexivity.
Qed.

Lemma through_last_close_some (s r : string) :
  through_last_close s = Some r ->
  exists body rest,
    r = (body ++ "}")%string /\ s = (r ++ rest)%string
    /\ all_chars (not_char "}") rest = true.
Proof.
  revert r. induction s as [|c s IH]; intros r; [discriminate|].
  cbn [through_last_close].
  destruct (through_last_close s) as [r'|] eqn:E.
  - intros H. injection H as <-.
    destruct (IH r' eq_refl) as [body [rest [-> [Hs Hrest]]]].
    exists (String c body), rest. cbn [append].
    split; [reflexivity|]. split; [rewrite Hs at 1; reflexivity | exact Hrest].
  - destruct (Ascii.eqb c "}") eqn:C; [|discriminate].
    intros H. injection H as <-. apply Ascii.eqb_eq in C. subst c.
    exists EmptyString, s. repeat split.
    apply through_last_close_none, E.
Qed.

Lemma through_last_close_head (c : ascii) (s r : string) :
  through_last_close (String c s) = Some r -> starts c r = true.
Proof.
  cbn [through_last_close]. destruct (through_last_close s).
  - intros H. injection H as <-. apply Ascii.eqb_refl.
  - destruct (Ascii.eqb c "}"); [|discriminate].
    intros H. injection H as <-. apply Ascii.eqb_refl.
Qed.

End BraceFacts.

(** X1.  When the brace match succeeds, the matched text starts at the
    first opening brace of the output and ends at its last closing brace:
    the output is [before ++ m ++ after] with no opening brace in [before]
    and no closing brace in [after]. *)
Theorem match_braces_extent (s m : string) :
  match_braces s = Some m ->
  exists before body after,
    s = (before ++ m ++ after)%string
    /\ starts "{" m = true
    /\ m = (body ++ "}")%string
    /\ all_chars (not_char "{") before = true
    /\ all_chars (not_char "}") after = true.
Proof.
  revert m. induction s as [|c s IH]; intros m; [discriminate|].
  cbn [match_braces]. destruct (Ascii.eqb c "{") eqn:C.
  - intros H. apply Ascii.eqb_eq in C. subst c.
    pose proof (through_last_close_head _ _ _ H) as Hhead.
    apply through_last_close_some in H.
    destruct H as [body [rest [Hm [Hs Hrest]]]].
    exists EmptyString, body, rest. cbn [append].
    repeat split; assumption.
  - intros H. destruct (IH m H) as [before [body [rest [Hs Hrest]]]].
    exists (String c before), body, rest. cbn [append all_chars].
    split; [rewrite Hs at 1; reflexivity|].
    unfold not_char at 1. rewrite C. cbn [negb andb]. exact Hrest.
Qed.

Lemma match_braces_extent_witness :
  exists before body after,
    "Sure {a} and {b}. Bye" = (before ++ "{a} and {b}" ++ after)%string
    /\ starts "{" "{a} and {b}" = true
    /\ "{a} and {b}" = (body ++ "}")%string
    /\ all_chars (not_char "{") before = true
    /\ all_chars (not_char "}") after = true.
Proof. apply match_braces_extent. reflexivity. Defined.

Section BraceMissFacts.

Lemma through_last_close_absent (s : string) :
  all_chars (not_char "}") s = true -> through_last_close s = None.
Proof.
  induction s as [|c s IH]; [reflexivity|]. cbn [all_chars through_last_close].
  intros H. apply andb_true_iff in H. destruct H as [Hc Hs].
  rewrite (IH Hs). unfold not_char in Hc. apply negb_true_iff in Hc.
  rewrite Hc. reflexivity.
Qed.

Lemma match_braces_miss (s : string) :
  match_braces s = None ->
  forall before after,
    s = (before ++ "{" ++ after)%string ->
    all_chars (not_char "}") after = true.
Proof.
  induction s as [|c s IH]; intros H before rest E.
  - destruct before; discriminate.
  - cbn [match_braces] in H. destruct (Ascii.eqb c "{") eqn:C.
    + apply through_last_close_none in H. rewrite E in H.
      apply all_chars_suffix in H. cbn [append all_chars] in H.
      apply andb_true_iff in H. apply H.
    + destruct before as [|d before]; cbn [append] in E.
      * injection E as -> _. discriminate.
      * injection E as _ ->. exact (IH H before rest eq_refl).
Qed.

Lemma match_braces_miss_conv (s : string) :
  (forall before after,
     s = (before ++ "{" ++ after)%string ->
     all_chars (not_char "}") after = true) ->
  match_braces s = None.
Proof.
  induction s as [|c s IH]; intros H; [reflexivity|].
  cbn [match_braces]. destruct (Ascii.eqb c "{") eqn:C.
  - apply Ascii.eqb_eq in C. subst c.
    apply through_last_close_absent. cbn [all_chars].
    rewrite (H EmptyString s eq_refl). reflexivity.
  - apply IH. intros before rest E.
    apply (H (String c before) rest). rewrite E. reflexivity.
Qed.

End BraceMissFacts.

(** X2.  The brace match fails exactly when no closing brace follows an
    opening brace, that is, when nothing after any opening brace of the
    output is a closing brace; the handlers then answer generated text
    with the fallback, whatever [JSON.parse] would do. *)
Theorem match_braces_none (s : string) :
  (match_braces s = None <->
   forall before after,
     s = (before ++ "{" ++ after)%string ->
     all_chars (not_char "}") after = true)
  /\ (match_braces s = None ->
      forall JSON_parse,
        parse_generated JSON_parse s = fallback s
        /\ ChatHF.finish JSON_parse (ChatHF.HfOk s) = fallback s
        /\ ChatGemini.finish JSON_parse (ChatGemini.GenText s)
           = fallback s).
Proof.
  split; [split; [apply match_braces_miss | apply match_braces_miss_conv]|].
  intros H JSON_parse.
  assert (E : parse_generated JSON_parse s = fallback s)
    by (unfold parse_generated; rewrite H; reflexivity).
  repeat split; exact E.
Qed.

Lemma match_braces_none_witness :
  all_chars (not_char "}") "design and code" = true
  /\ ChatHF.finish Sample.parse (ChatHF.HfOk "} I like {design and code")
     = ok_envelope "} I like {design and code" "low" [].
Proof.
  split.
  - apply (proj1 (proj1 (match_braces_none "} I like {design and code"))
             eq_refl "} I like " "design and code").
    reflexivity.
  - apply (proj2 (match_braces_none "} I like {design and code") eq_refl).
Defined.

(** ** Model output *)

(** X3.  Whatever the model returns and whatever [JSON.parse] makes of it,
    the response built from it is a 200 envelope whose answer has at most
    2000 code units and whose confidence is one of the three levels. *)
Theorem model_output_bounded
  (JSON_parse : string -> option json) (generated : string) :
  exists a c srcs,
    parse_generated JSON_parse generated = ok_envelope a c srcs
    /\ String.length a <= 2000
    /\ In c levels.
Proof.
  assert (F : exists a c srcs,
            fallback generated = ok_envelope a c srcs
            /\ String.length a <= 2000 /\ In c levels).
  { unfold fallback. eexists _, _, _. split; [reflexivity|]. split.
    - destruct (is_empty (slice0 2000 (trim generated)));
        [vm_compute; lia | apply slice0_length].
    - simpl. tauto. }
  unfold parse_generated.
  destruct (match_braces generated) as [m|]; [|exact F].
  destruct (JSON_parse m) as [parsed|]; [|exact F].
  destruct (coerce parsed) as [r|] eqn:E; [|exact F].
  apply coerce_some in E. destruct E as [a [srcs [pc ->]]].
  exists (slice0 2000 a), (confidence_of srcs pc), srcs.
  split; [reflexivity|]. split; [apply slice0_length|].
  apply confidence_of_level.
Qed.

(** ** Scored retrieval *)

Section RankingFacts.

Lemma insert_desc_perm (x : obj) (l : list obj) :
  Permutation (ChatGemini.insert_desc x l) (x :: l).
Proof.
  induction l as [|y l IH]; cbn [ChatGemini.insert_desc]; [reflexivity|].
  destruct (score_of x <? score_of y); [|reflexivity].
  rewrite IH. apply perm_swap.
Qed.

Lemma sort_desc_perm (l : list obj) :
  Permutation (ChatGemini.sort_desc l) l.
Proof.
  unfold ChatGemini.sort_desc.
  induction l as [|x l IH]; cbn [fold_right]; [reflexivity|].
  rewrite insert_desc_perm. constructor. exact IH.
Qed.

Lemma insert_desc_ranked (x : obj) (l : list obj) :
  StronglySorted by_score l ->
  StronglySorted by_score (ChatGemini.insert_desc x l).
Proof.
  induction l as [|y l IH]; cbn [ChatGemini.insert_desc]; intros H.
  - repeat constructor.
  - inversion H as [|? ? Hl Hy]; subst.
    destruct (score_of x <? score_of y) eqn:C.
    + apply Nat.ltb_lt in C. constructor; [apply IH, Hl|].
      apply Forall_forall. intros z Hz.
      apply (Permutation_in _ (insert_desc_perm x l)) in Hz.
      destruct Hz as [<-|Hz]; [unfold by_score; lia|].
      rewrite Forall_forall in Hy. apply Hy, Hz.
    + apply Nat.ltb_ge in C. constructor; [exact H|].
      constructor; [exact C|].
      rewrite Forall_forall in Hy |- *. intros z Hz.
      specialize (Hy z Hz). unfold by_score in *. lia.
Qed.

Lemma sort_desc_ranked (l : list obj) :
  StronglySorted by_score (ChatGemini.sort_desc l).
Proof.
  unfold ChatGemini.sort_desc.
  induction l as [|x l IH]; cbn [fold_right]; [constructor|].
  apply insert_desc_ranked, IH.
Qed.

Lemma scored_In (query : string) (kb : list snippet) (o : obj) :
  In o (ChatGemini.scored query kb) <->
  exists item,
    In item (objects kb)
    /\ o = with_score item (ChatGemini.item_score (tokens query) item)
    /\ 1 <= ChatGemini.item_score (tokens query) item.
Proof.
  unfold ChatGemini.scored. split.
  - intros H. apply (Permutation_in _ (sort_desc_perm _)) in H.
    apply filter_In in H. destruct H as [H Hpos].
    apply in_map_iff in H. destruct H as [item [<- Hitem]].
    exists item. split; [exact Hitem|]. split; [reflexivity|].
    apply Nat.ltb_lt in Hpos. exact Hpos.
  - intros [item [Hitem [-> Hpos]]].
    apply (Permutation_in _ (Permutation_sym (sort_desc_perm _))).
    apply filter_In. split.
    + apply in_map_iff. exists item. split; [reflexivity | exact Hitem].
    + apply Nat.ltb_lt. exact Hpos.
Qed.

Lemma objects_from_kbref (i : nat) (kb : list snippet) (o : obj) :
  In o (objects_from i kb) -> exists j, addr o = KbRef j.
Proof.
  revert i. induction kb as [|s kb IH]; intros i; [intros []|].
  cbn [objects_from In]. intros [<-|H]; [eexists; reflexivity|].
  exact (IH _ H).
Qed.

Lemma with_score_addrs (n : obj -> nat) (i : nat) (kb : list snippet) :
  map addr (map (fun item => with_score item (n item)) (objects_from i kb))
  = map CopyRef (seq i (List.length kb)).
Proof.
  revert i. induction kb as [|s kb IH]; intros i; [reflexivity|].
  cbn [objects_from map List.length seq with_score addr].
  rewrite IH. reflexivity.
Qed.

(** The scored copies have pairwise distinct addresses, none of them the
    address of an element of the knowledge base. *)
Lemma scored_addrs (query : string) (kb : list snippet) :
  NoDup (map addr (ChatGemini.scored query kb))
  /\ forall o, In o (ChatGemini.scored query kb) ->
               exists j, addr o = CopyRef j.
Proof.
  split.
  - unfold ChatGemini.scored.
    apply (Permutation_NoDup
             (Permutation_map addr (Permutation_sym (sort_desc_perm _)))).
    apply filter_distinct. unfold objects. rewrite with_score_addrs.
    apply NoDup_map_injective; [|apply seq_NoDup].
    intros x y _ _ H. congruence.
  - intros o H. apply scored_In in H. destruct H as [item [Hitem [-> _]]].
    apply objects_from_kbref in Hitem. destruct Hitem as [j Hj].
    exists j. cbn [with_score addr]. rewrite Hj. reflexivity.
Qed.

Lemma firstn_distinct (n : nat) (l : list obj) :
  NoDup (map addr l) -> NoDup (map addr (firstn n l)).
Proof.
  intros H. rewrite <- (firstn_skipn n l), map_app in H.
  exact (NoDup_app_remove_r _ _ H).
Qed.

Lemma firstn_In {A : Type} (n : nat) (l : list A) (x : A) :
  In x (firstn n l) -> In x l.
Proof.
  intros H. rewrite <- (firstn_skipn n l). apply in_or_app. left. exact H.
Qed.

Lemma gemini_merged (query : string) (kb : list snippet) (n : nat) :
  ChatGemini.merged query kb n
  = (ChatGemini.anchors kb ++ firstn n (ChatGemini.scored query kb))%list.
Proof.
  unfold ChatGemini.merged. apply new_Set_fixed. rewrite map_app.
  destruct (scored_addrs query kb) as [N C].
  apply NoDup_app;
    [apply gemini_anchors_NoDup | apply firstn_distinct, N |].
  intros a Ha Hb. apply in_map_iff in Ha, Hb.
  destruct Ha as [x [<- Hx]], Hb as [y [E Hy]].
  apply filter_In in Hx. destruct Hx as [Hx _].
  apply objects_from_kbref in Hx. destruct Hx as [i Hi].
  apply firstn_In, C in Hy. destruct Hy as [j Hj]. congruence.
Qed.

End RankingFacts.

(** X4.  In the scored retrieval the set never merges anything: the
    sources are the ids of the anchors, in knowledge-base order, followed by
    the ids of the first [maxChunks] scored hits, so their number is at most
    the number of anchors plus [maxChunks]. *)
Theorem gemini_sources_anchors_then_top
  (query : string) (kb : list snippet) (maxChunks : nat) :
  sources (ChatGemini.buildContext query kb maxChunks)
  = (map (fun k => id (snip k)) (ChatGemini.anchors kb)
     ++ map (fun k => id (snip k))
            (firstn maxChunks (ChatGemini.scored query kb)))%list
  /\ List.length (sources (ChatGemini.buildContext query kb maxChunks))
     <= List.length (ChatGemini.anchors kb) + maxChunks.
Proof.
  rewrite gemini_sources, gemini_merged, map_app. split; [reflexivity|].
  rewrite length_app, !length_map.
  pose proof (firstn_le_length maxChunks (ChatGemini.scored query kb)). lia.
Qed.

(** X5.  The scored hits are exactly the snippets on which at least one
    token hits, each carrying its number of hitting tokens, ranked from the
    highest score down; there are at most as many as snippets, and no score
    exceeds the number of tokens. *)
Theorem scored_ranked (query : string) (kb : list snippet) :
  StronglySorted by_score (ChatGemini.scored query kb)
  /\ (forall o,
        In o (ChatGemini.scored query kb) <->
        exists item,
          In item (objects kb)
          /\ o = with_score item (ChatGemini.item_score (tokens query) item)
          /\ 1 <= ChatGemini.item_score (tokens query) item)
  /\ (forall o, In o (ChatGemini.scored query kb) ->
                score_of o <= List.length (tokens query))
  /\ List.length (ChatGemini.scored query kb) <= List.length kb.
Proof.
  split; [apply sort_desc_ranked|]. split; [apply scored_In|]. split.
  - intros o H. apply scored_In in H. destruct H as [item [_ [-> _]]].
    unfold score_of, with_score, ChatGemini.item_score. cbn [score].
    apply filter_length_le.
  - unfold ChatGemini.scored.
    rewrite (Permutation_length (sort_desc_perm _)).
    etransitivity; [apply filter_length_le|].
    rewrite length_map. unfold objects.
    rewrite <- (length_map snip), objects_from_snip. lia.
Qed.

Section ShortCutFacts.

Variable SYSTEM_PROMPT : string.
Variable JSON_parse : string -> option json.

Lemma hf_selected_nonempty (query : string) (kb : list snippet) :
  ChatHF.anchors kb <> [] ->
  sources (ChatHF.buildContext query kb) <> [].
Proof.
  intros Ha. destruct (hf_sources_anchors_first query kb) as [rest ->].
  destruct (ChatHF.anchors kb); [congruence | discriminate].
Qed.

Lemma gemini_merged_nonempty (query : string) (kb : list snippet) (n : nat) :
  ChatGemini.anchors kb <> [] ->
  sources (ChatGemini.buildContext query kb n) <> [].
Proof.
  intros Ha. rewrite gemini_sources, gemini_merged.
  destruct (ChatGemini.anchors kb); [congruence | discriminate].
Qed.

End ShortCutFacts.

(** X6.  When the knowledge base holds an anchor snippet, the context is
    never empty, so neither chat handler ever gives the no-information
    answer on its own: every question that no canned entry answers goes to
    the configuration check and the model. *)
Theorem anchor_disables_short_cut
  (SYSTEM_PROMPT : string) (JSON_parse : string -> option json)
  (key mdl : envvar) (KB : list snippet) (req : request) :
  (ChatHF.anchors KB <> [] ->
   (forall query, sources (ChatHF.buildContext query KB) <> [])
   /\ ChatHF.handler SYSTEM_PROMPT JSON_parse key mdl KB req
      <> Respond (ok_envelope no_info "low" []))
  /\ (ChatGemini.anchors KB <> [] ->
      (forall query n, sources (ChatGemini.buildContext query KB n) <> [])
      /\ ChatGemini.handler SYSTEM_PROMPT JSON_parse key mdl KB req
         <> Respond (ok_envelope no_info "low" [])).
Proof.
  split; intros Ha; (split; [intros; first
    [apply hf_selected_nonempty | apply gemini_merged_nonempty]; exact Ha|]).
  - unfold ChatHF.handler.
    destruct (negb (String.eqb (method req) "POST")); [discriminate|].
    destruct (question (body_text req)) as [text0|]; [|discriminate].
    destruct (ChatHF.canned KB (toLowerCase text0)) as [r|] eqn:C.
    { apply hf_canned_shape in C. destruct C as [k [cid [_ [-> _]]]].
      discriminate. }
    pose proof (hf_selected_nonempty text0 KB Ha) as Hne.
    destruct (sources (ChatHF.buildContext text0 KB)); [congruence|].
    destruct (negb (env_set key) || negb (env_set mdl)); discriminate.
  - unfold ChatGemini.handler.
    destruct (negb (String.eqb (method req) "POST")); [discriminate|].
    destruct (question (body_text req)) as [text0|]; [|discriminate].
    destruct (ChatGemini.canned_loop _ _ _) as [r|] eqn:C.
    { apply canned_loop_shape in C.
      destruct C as [re [cid [hit [_ [_ [_ ->]]]]]]. discriminate. }
    pose proof (gemini_merged_nonempty text0 KB ChatGemini.default_maxChunks
                  Ha) as Hne.
    destruct (sources (ChatGemini.buildContext text0 KB _)); [congruence|].
    destruct (negb (env_set key)); discriminate.
Qed.

Lemma anchor_disables_short_cut_witness :
  sources (ChatHF.buildContext "asdkjasd" ChatHF.inline_kb) <> []
  /\ sources (ChatGemini.buildContext "asdkjasd" ChatGemini.inline_kb 5)
     <> [].
Proof.
  split.
  - apply (proj1 (anchor_disables_short_cut Sample.SYSTEM_PROMPT
                    Sample.parse None None ChatHF.inline_kb (post "x")));
      vm_compute; discriminate.
  - apply (proj2 (anchor_disables_short_cut Sample.SYSTEM_PROMPT
                    Sample.parse None None ChatGemini.inline_kb (post "x")));
      vm_compute; discriminate.
Defined.

(** X7.  In api/chat.js the sources start with the anchors, are ids of
    snippets of the knowledge base, and are never more than the knowledge
    base has snippets; when the ids of the knowledge base are unique no id
    is listed twice. *)
Theorem hf_sources_profile (query : string) (kb : list snippet) :
  (exists rest,
     sources (ChatHF.buildContext query kb)
     = (map (fun k => id (snip k)) (ChatHF.anchors kb) ++ rest)%list)
  /\ incl (sources (ChatHF.buildContext query kb)) (map id kb)
  /\ List.length (sources (ChatHF.buildContext query kb))
     <= List.length kb
  /\ (NoDup (map id kb) ->
      NoDup (sources (ChatHF.buildContext query kb))).
Proof.
  split; [apply hf_sources_anchors_first|]. split; [|split].
  - intros i Hi. unfold ChatHF.buildContext in Hi. cbn [sources] in Hi.
    apply in_map_iff in Hi. destruct Hi as [k [<- Hk]].
    apply hf_selected_In in Hk. rewrite <- objects_ids.
    apply in_map_iff. exists k. split; [reflexivity | exact Hk].
  - unfold ChatHF.buildContext. cbn [sources]. rewrite length_map.
    assert (Haddr : NoDup (map addr (ChatHF.selected query kb)))
      by apply dedup_NoDup.
    apply NoDup_map_inv in Haddr.
    assert (L : List.length (objects kb) = List.length kb)
      by (unfold objects; rewrite <- (length_map snip), objects_from_snip;
          reflexivity).
    rewrite <- L. apply NoDup_incl_length; [exact Haddr|].
    intros k Hk. exact (hf_selected_In _ _ _ Hk).
  - apply hf_sources_no_duplicates.
Qed.

Lemma hf_sources_profile_witness :
  NoDup (sources (ChatHF.buildContext "design and code" ChatHF.inline_kb)).
Proof.
  apply (hf_sources_profile "design and code" ChatHF.inline_kb).
  vm_compute. repeat constructor; cbn [In]; intuition discriminate.
Defined.

(** ** Tokens *)

Section TokenFacts.

Lemma lower_word_char (c : ascii) :
  is_word (lower_char c) = true -> is_lower_word (lower_char c) = true.
Proof.
  destruct c as [[] [] [] [] [] [] [] []]; vm_compute; trivial.
Qed.

Lemma toLowerCase_chars (s : string) :
  all_chars (fun c => implb (is_word c) (is_lower_word c)) (toLowerCase s)
  = true.
Proof.
  induction s as [|c s IH]; [reflexivity|].
  cbn [toLowerCase all_chars]. rewrite IH, andb_true_r.
  destruct (is_word (lower_char c)) eqn:W; [|reflexivity].
  cbn [implb]. apply lower_word_char, W.
Qed.

(** The runs read from a text hold its word characters only, and none is
    empty. *)
Lemma words_from_chars (P : ascii -> bool) (cur s : string) (w : string) :
  all_chars (fun c => implb (is_word c) (P c)) s = true ->
  all_chars P cur = true ->
  In w (words_from cur s) ->
  all_chars P w = true /\ w <> EmptyString.
Proof.
  revert cur. induction s as [|c s IH]; intros cur Hs Hcur.
  - cbn [words_from]. destruct cur; cbn [is_empty In]; [tauto|].
    intros [<-|[]]. split; [exact Hcur | discriminate].
  - cbn [all_chars] in Hs. apply andb_true_iff in Hs. destruct Hs as [Hc Hs].
    cbn [words_from]. destruct (is_word c) eqn:W.
    + apply IH; [exact Hs|]. rewrite all_chars_app, Hcur.
      cbn [all_chars]. cbn [implb] in Hc. rewrite Hc. reflexivity.
    + destruct cur as [|d cur]; cbn [is_empty].
      * apply IH; [exact Hs | reflexivity].
      * intros [<-|H]; [split; [exact Hcur | discriminate]|].
        revert H. apply IH; [exact Hs | reflexivity].
Qed.

Lemma dedup_subset {A : Type} (same : A -> A -> bool) (seen l : list A)
  (x : A) :
  In x (dedup same seen l) -> In x l.
Proof.
  revert seen. induction l as [|y l IH]; intros seen; [trivial|].
  cbn [dedup]. destruct (existsb (same y) seen).
  - intros H. right. exact (IH _ H).
  - intros [<-|H]; [left; reflexivity | right; exact (IH _ H)].
Qed.

Lemma dedup_strings (seen l : list string) :
  NoDup (dedup String.eqb seen l)
  /\ forall x, In x (dedup String.eqb seen l) -> ~ In x seen.
Proof.
  revert seen. induction l as [|x l IH]; intros seen.
  - split; [constructor | intros ? []].
  - cbn [dedup]. destruct (existsb (String.eqb x) seen) eqn:E; [apply IH|].
    destruct (IH (x :: seen)) as [N U]. split.
    + constructor; [|exact N]. intros Hin.
      exact (U x Hin (or_introl eq_refl)).
    + intros y [<-|Hy] Hseen.
      * apply not_true_iff_false in E. apply E. apply existsb_exists.
        exists x. split; [exact Hseen | apply String.eqb_refl].
      * exact (U y Hy (or_intror Hseen)).
Qed.

(** Every element of [l] survives in the set. *)
Lemma dedup_keeps (seen l : list string) (x : string) :
  In x l -> In x seen \/ In x (dedup String.eqb seen l).
Proof.
  revert seen. induction l as [|y l IH]; intros seen; [intros []|].
  cbn [dedup]. intros [->|H].
  - destruct (existsb (String.eqb x) seen) eqn:E.
    + left. apply existsb_exists in E. destruct E as [z [Hz Hxz]].
      apply String.eqb_eq in Hxz. subst z. exact Hz.
    + right. left. reflexivity.
  - destruct (existsb (String.eqb y) seen).
    + apply IH, H.
    + destruct (IH (y :: seen) H) as [[<-|Hs]|Hd].
      * right. left. reflexivity.
      * left. exact Hs.
      * right. right. exact Hd.
Qed.

End TokenFacts.

(** X8.  The tokens of a query are pairwise distinct, none is empty, each
    consists of lowercase letters, digits and underscores only, and they
    are exactly the word runs of the lowercased query. *)
Theorem tokens_profile (query : string) :
  NoDup (tokens query)
  /\ (forall tok, In tok (tokens query) ->
        tok <> EmptyString /\ all_chars is_lower_word tok = true)
  /\ (forall tok, In tok (tokens query) <->
        In tok (words_from EmptyString (toLowerCase query))).
Proof.
  unfold tokens, new_Set. split; [apply dedup_strings|].
  assert (Hiff : forall tok,
            In tok (dedup String.eqb [] (words_from EmptyString
                                           (toLowerCase query))) <->
            In tok (words_from EmptyString (toLowerCase query))).
  { intros tok. split; [apply dedup_subset|].
    intros H. destruct (dedup_keeps [] _ _ H) as [[]|H']. exact H'. }
  split; [|exact Hiff].
  intros tok H. apply Hiff in H.
  destruct (words_from_chars is_lower_word EmptyString (toLowerCase query)
              tok (toLowerCase_chars query) eq_refl H) as [Hc Hne].
  split; assumption.
Qed.

(** ** Speech handlers *)

Section LengthFacts.

Lemma append_length (s t : string) :
  String.length (s ++ t) = String.length s + String.length t.
Proof. induction s as [|c s IH]; simpl; [reflexivity | rewrite IH; reflexivity]. Qed.

Lemma prefix_length (p s : string) :
  prefix p s = true -> String.length p <= String.length s.
Proof.
  revert s. induction p as [|c p IH]; intros s H; [simpl; lia|].
  destruct s as [|d s]; [discriminate|]. cbn [prefix] in H.
  destruct (ascii_dec c d); [|discriminate].
  specialize (IH s H). simpl. lia.
Qed.

(** A replacement no longer than its pattern never lengthens the text. *)
Lemma replace_from_length (p r s : string) (skip : nat) :
  String.length r <= String.length p ->
  String.length (replace_from p r skip s) <= String.length s - skip.
Proof.
  intros Hr. revert skip. induction s as [|c s IH]; intros skip;
    [simpl; lia|].
  cbn [replace_from]. destruct skip as [|k].
  - destruct (prefix p (String c s)) eqn:E.
    + apply prefix_length in E. rewrite append_length.
      specialize (IH (pred (String.length p))).
      cbn [String.length] in *. lia.
    + specialize (IH 0). cbn [String.length]. lia.
  - specialize (IH k). cbn [String.length]. lia.
Qed.

Lemma replaceAll_length (p r s : string) :
  String.length r <= String.length p ->
  String.length (replaceAll p r s) <= String.length s.
Proof.
  intros H. unfold replaceAll.
  pose proof (replace_from_length p r s 0 H). lia.
Qed.

Lemma trimStart_length (s : string) :
  String.length (trimStart s) <= String.length s.
Proof.
  induction s as [|c s IH]; [simpl; lia|]. cbn [trimStart].
  destruct (is_space c); cbn [String.length]; lia.
Qed.

Lemma trimEnd_length (s : string) :
  String.length (trimEnd s) <= String.length s.
Proof.
  induction s as [|c s IH]; [simpl; lia|]. cbn [trimEnd].
  destruct (is_space c && is_empty (trimEnd s)); cbn [String.length]; lia.
Qed.

Lemma clean_length (s : string) :
  String.length (Tts.clean s) <= String.length s.
Proof.
  unfold Tts.clean, trim.
  repeat match goal with
  | |- String.length (trimEnd ?x) <= _ =>
      etransitivity; [apply trimEnd_length|]
  | |- String.length (trimStart ?x) <= _ =>
      etransitivity; [apply trimStart_length|]
  | |- String.length (replaceAll ?p ?r ?x) <= _ =>
      etransitivity; [apply replaceAll_length; vm_compute; lia|]
  end.
  lia.
Qed.

End LengthFacts.

(** X9.  Whenever the cleaning speech handler calls the speech endpoint,
    the text it sends is the cleaned request text: it holds no brace and no
    backslash followed by n, has no white space at either end, and is no
    longer than the text received. *)
Theorem tts_sends_clean_text
  (key : envvar) (req : request) (c : TtsHandler.call)
  (k : TtsHandler.reply -> response) :
  TtsHandler.handler key req = Upstream c k ->
  exists text0,
    body_text req = Some (JStr text0)
    /\ TtsHandler.text c = Tts.clean text0
    /\ includes (TtsHandler.text c) "{" = false
    /\ includes (TtsHandler.text c) "}" = false
    /\ includes (TtsHandler.text c) "\n" = false
    /\ trim (TtsHandler.text c) = TtsHandler.text c
    /\ String.length (TtsHandler.text c) <= String.length text0.
Proof.
  unfold TtsHandler.handler.
  destruct (negb (String.eqb (method req) "POST")); [discriminate|].
  destruct (negb (truthy (body_text req))); [discriminate|].
  destruct (body_text req) as [[| | |text0| |]|]; try discriminate.
  destruct (is_empty (trim text0)); [discriminate|].
  destruct (negb (env_set key)); [discriminate|].
  intros H. injection H as <- _. exists text0. cbn [TtsHandler.text].
  split; [reflexivity|]. split; [reflexivity|].
  split; [apply clean_no_open|]. split; [apply clean_no_close|].
  split; [apply clean_no_backslash_n|].
  split; [apply clean_trimmed | apply clean_length].
Qed.

Lemma tts_sends_clean_text_witness :
  exists text0,
    Some (JStr " {hi} there ") = Some (JStr text0)
    /\ "hi there" = Tts.clean text0
    /\ includes "hi there" "{" = false
    /\ includes "hi there" "}" = false
    /\ includes "hi there" "\n" = false
    /\ trim "hi there" = "hi there"
    /\ String.length "hi there" <= String.length text0.
Proof.
  exact (tts_sends_clean_text (Some "k") (post " {hi} there ")
           {| TtsHandler.url :=
                "https://api.elevenlabs.io/v1/text-to-speech/m8ysB8KEJV5BeYQnOtWN";
              TtsHandler.api_key := "k";
              TtsHandler.text := "hi there" |}
           TtsHandler.finish eq_refl).
Defined.

(** X10.  The cleaning speech handler answers 405 to every method but
    POST; 400 when the text is falsy or a blank string; 500 when the text
    is a truthy value that is not a string, or when the API key is not
    set; otherwise it calls the speech endpoint and answers 500 when the
    call throws, 502 when the upstream status is not a success, and 200
    with the audio. *)
Theorem tts_status_codes (key : envvar) (req : request) :
  let run := TtsHandler.handler key req in
  (method req <> "POST" ->
   run = Respond (json_error 405 "Method not allowed"))
  /\ (method req = "POST" ->
      (truthy (body_text req) = false
       \/ exists s, body_text req = Some (JStr s) /\ trim s = EmptyString) ->
      run = Respond (json_error 400 "No text provided"))
  /\ (method req = "POST" ->
      truthy (body_text req) = true ->
      (forall s, body_text req <> Some (JStr s)) ->
      exists r, run = Respond r /\ status r = 500)
  /\ (forall s,
        method req = "POST" ->
        body_text req = Some (JStr s) ->
        is_empty (trim s) = false ->
        (env_set key = false ->
         run = Respond (json_error 500 "ELEVENLABS_API_KEY not set"))
        /\ (env_set key = true ->
            exists c,
              run = Upstream c TtsHandler.finish
              /\ (forall e, status (TtsHandler.finish
                                      (TtsHandler.FetchThrows e)) = 500)
              /\ (forall b, status (TtsHandler.finish
                                      (TtsHandler.FetchNotOk b)) = 502)
              /\ (forall a, TtsHandler.finish (TtsHandler.FetchOk a)
                            = {| status := 200; payload := Audio a |}))).
Proof.
  intros run. subst run. unfold TtsHandler.handler.
  split; [|split; [|split]].
  - intros H. apply String.eqb_neq in H. rewrite H. reflexivity.
  - intros -> [H | [s [-> H]]].
    + rewrite H. reflexivity.
    + change (negb (String.eqb "POST" "POST")) with false. cbv iota.
      destruct (negb (truthy (Some (JStr s)))); [reflexivity|].
      rewrite H. reflexivity.
  - intros -> Ht Hns. rewrite Ht.
    change (negb (String.eqb "POST" "POST")) with false. cbv iota.
    cbn [negb].
    destruct (body_text req) as [[| | |s| |]|];
      try (eexists; split; reflexivity).
    exfalso. exact (Hns s eq_refl).
  - intros s -> -> Hb.
    change (negb (String.eqb "POST" "POST")) with false. cbv iota.
    assert (Ht : truthy (Some (JStr s)) = true)
      by (destruct s; [discriminate | reflexivity]).
    rewrite Ht, Hb. cbn [negb]. split; intros ->; cbn [negb].
    + reflexivity.
    + eexists. repeat split.
Qed.

Lemma tts_status_codes_witness :
  TtsHandler.handler None (post "hello")
  = Respond (json_error 500 "ELEVENLABS_API_KEY not set").
Proof.
  apply (proj2 (proj2 (proj2 (tts_status_codes None (post "hello"))))
           "hello"); reflexivity.
Defined.

(** X11.  The two speech handlers answer alike whenever they answer
    without calling the speech endpoint, and they call it for the same
    requests; the first one sends the text as received, to the voice named
    by [ELEVENLABS_VOICE_ID] or to the default voice when that is unset. *)
Theorem tts_plain_matches_cleaning (key voice : envvar) (req : request) :
  (forall r,
     TtsPlain.handler key voice req = Respond r <->
     TtsHandler.handler key req = Respond r)
  /\ (forall c k,
        TtsPlain.handler key voice req = Upstream c k ->
        exists text0,
          body_text req = Some (JStr text0)
          /\ TtsHandler.text c = text0
          /\ TtsHandler.url c
             = ("https://api.elevenlabs.io/v1/text-to-speech/"
                ++ env_or voice TtsPlain.default_voiceId)%string
          /\ k = TtsHandler.finish
          /\ exists c',
               TtsHandler.handler key req = Upstream c' TtsHandler.finish
               /\ TtsHandler.text c' = Tts.clean text0
               /\ TtsHandler.api_key c' = TtsHandler.api_key c).
Proof.
  unfold TtsPlain.handler, TtsHandler.handler.
  destruct (negb (String.eqb (method req) "POST"));
    [split; [tauto | discriminate]|].
  destruct (negb (truthy (body_text req)));
    [split; [tauto | discriminate]|].
  destruct (body_text req) as [[| | |text0| |]|];
    try (split; [tauto | discriminate]).
  destruct (is_empty (trim text0)); [split; [tauto | discriminate]|].
  destruct (negb (env_set key)); [split; [tauto | discriminate]|].
  split; [split; discriminate|].
  intros c k H. injection H as <- <-. exists text0.
  repeat split. eexists. repeat split.
Qed.

Lemma tts_plain_matches_cleaning_witness :
  exists text0,
    Some (JStr "{hi}") = Some (JStr text0)
    /\ "{hi}" = text0
    /\ ("https://api.elevenlabs.io/v1/text-to-speech/"
        ++ TtsPlain.default_voiceId)%string
       = ("https://api.elevenlabs.io/v1/text-to-speech/"
          ++ env_or None TtsPlain.default_voiceId)%string
    /\ TtsHandler.finish = TtsHandler.finish
    /\ exists c',
         TtsHandler.handler (Some "k") (post "{hi}")
         = Upstream c' TtsHandler.finish
         /\ TtsHandler.text c' = Tts.clean text0
         /\ TtsHandler.api_key c' = "k".
Proof.
  exact (proj2 (tts_plain_matches_cleaning (Some "k") None (post "{hi}"))
           {| TtsHandler.url :=
                ("https://api.elevenlabs.io/v1/text-to-speech/"
                 ++ TtsPlain.default_voiceId)%string;
              TtsHandler.api_key := "k";
              TtsHandler.text := "{hi}" |}
           TtsHandler.finish eq_refl).
Defined.

(** ** The Gemini backed chat handlers *)

(** X12.  The first Gemini handler answers exactly as api/chat.js does up
    to the configuration check: the same 405, 400, canned and
    no-information responses.  Past that point it answers 500 only when
    neither [GEMINI_API_KEY] nor [GOOGLE_API_KEY] is set, and otherwise
    calls the model with the first of the two that is set and with the
    default model name when [GEMINI_MODEL] is unset. *)
Theorem gemini_v1_profile
  (SYSTEM_PROMPT : string) (JSON_parse : string -> option json)
  (k1 k2 mdl tok hfm : envvar) (KB : list snippet) (req : request) :
  let v1 := ChatGeminiV1.handler SYSTEM_PROMPT JSON_parse k1 k2 mdl KB req in
  let hf := ChatHF.handler SYSTEM_PROMPT JSON_parse tok hfm KB req in
  (forall r, status r <> 500 -> (v1 = Respond r <-> hf = Respond r))
  /\ (forall text0,
        method req = "POST" ->
        question (body_text req) = Some text0 ->
        ChatHF.canned KB (toLowerCase text0) = None ->
        sources (ChatHF.buildContext text0 KB) <> [] ->
        (env_set k1 = false -> env_set k2 = false ->
         exists msg, v1 = Respond (json_error 500 msg))
        /\ (env_set k1 = true \/ env_set k2 = true ->
            exists c,
              v1 = Upstream c (ChatGemini.finish JSON_parse)
              /\ Some (ChatGemini.key c) = (if env_set k1 then k1 else k2)
              /\ ChatGemini.model c = env_or mdl "gemini-1.5-flash"
              /\ ChatGemini.prompt c
                 = make_prompt SYSTEM_PROMPT
                     (context (ChatHF.buildContext text0 KB)) text0)).
Proof.
  intros v1 hf. subst v1 hf.
  unfold ChatGeminiV1.handler, ChatHF.handler,
    ChatGeminiV1.canned, ChatGeminiV1.buildContext. split.
  - intros r Hr.
    assert (Same : forall r0 : response,
              @Respond ChatGemini.call ChatGemini.reply r0 = Respond r <->
              @Respond ChatHF.call ChatHF.reply r0 = Respond r)
      by (intros r0; split; intros H; injection H as <-; reflexivity).
    destruct (negb (String.eqb (method req) "POST")); [apply Same|].
    destruct (question (body_text req)) as [text0|]; [|apply Same].
    destruct (ChatHF.canned KB (toLowerCase text0)); [apply Same|].
    destruct (sources (ChatHF.buildContext text0 KB)); [apply Same|].
    destruct (negb (env_set (ChatGeminiV1.env_either k1 k2)));
      destruct (negb (env_set tok) || negb (env_set hfm));
      split; intros H; try discriminate;
      injection H as <-; exfalso; apply Hr; reflexivity.
  - intros text0 -> -> -> Hne.
    change (negb (String.eqb "POST" "POST")) with false. cbv iota.
    destruct (sources (ChatHF.buildContext text0 KB)); [congruence|].
    unfold ChatGeminiV1.env_either. split.
    + intros -> ->. eexists. reflexivity.
    + intros Hset.
      assert (E : env_set (if env_set k1 then k1 else k2) = true).
      { destruct (env_set k1) eqn:E1; [exact E1|].
        destruct Hset as [H|H]; [discriminate | exact H]. }
      remember (if env_set k1 then k1 else k2) as K eqn:HK.
      rewrite E. cbn [negb]. eexists. split; [reflexivity|].
      cbn [ChatGemini.key ChatGemini.model ChatGemini.prompt].
      split; [|split; reflexivity].
      destruct K as [kv|]; [|discriminate].
      cbn [env_set] in E. cbn [env_or].
      destruct (is_empty kv); [discriminate|].
      first [reflexivity | exact HK].
Qed.

Lemma gemini_v1_profile_witness :
  exists c,
    ChatGeminiV1.handler Sample.SYSTEM_PROMPT Sample.parse
      None (Some "google-key") None ChatHF.inline_kb (post "design")
    = Upstream c (ChatGemini.finish Sample.parse)
    /\ Some (ChatGemini.key c) = Some "google-key"
    /\ ChatGemini.model c = "gemini-1.5-flash"
    /\ ChatGemini.prompt c
       = make_prompt Sample.SYSTEM_PROMPT
           (context (ChatHF.buildContext "design" ChatHF.inline_kb))
           "design".
Proof.
  destruct (proj2 (gemini_v1_profile Sample.SYSTEM_PROMPT Sample.parse
                     None (Some "google-key") None None None
                     ChatHF.inline_kb (post "design"))
              "design" eq_refl eq_refl eq_refl) as [_ H].
  - vm_compute. discriminate.
  - apply H. right. reflexivity.
Defined.

Section GeminiCodes.

Lemma canned_loop_none (K : list obj) (q : string)
  (table : list (list string * string)) :
  ChatGemini.canned_loop K q table = None <->
  (forall re cid, In (re, cid) table ->
     re_test re q = false \/ find_id cid K = None).
Proof.
  induction table as [|[re cid] table IH]; cbn [ChatGemini.canned_loop].
  - split; [intros _ ? ? [] | reflexivity].
  - destruct (re_test re q) eqn:R.
    + destruct (find_id cid K) as [hit|] eqn:F.
      * split; [discriminate|]. intros H.
        destruct (H re cid (or_introl eq_refl)); congruence.
      * rewrite IH. split.
        -- intros H re' cid' [E|Hin]; [injection E as <- <-; tauto|].
           apply H, Hin.
        -- intros H re' cid' Hin. apply H. right. exact Hin.
    + rewrite IH. split.
      * intros H re' cid' [E|Hin]; [injection E as <- <-; tauto|].
        apply H, Hin.
      * intros H re' cid' Hin. apply H. right. exact Hin.
Qed.

End GeminiCodes.

(** X13.  The canned table gives no answer exactly when every entry
    either does not match the lowercased question or names a snippet that
    the knowledge base lacks; the question then goes on to retrieval. *)
Theorem canned_table_silent
  (SYSTEM_PROMPT : string) (JSON_parse : string -> option json)
  (key mdl : envvar) (KB : list snippet) (text0 : string) :
  question (Some (JStr text0)) = Some text0 ->
  ((forall re cid, In (re, cid) ChatGemini.canned ->
      re_test re (toLowerCase text0) = false
      \/ find_id cid (objects KB) = None) <->
   ChatGemini.canned_loop (objects KB) (toLowerCase text0) ChatGemini.canned
   = None)
  /\ (ChatGemini.canned_loop (objects KB) (toLowerCase text0)
        ChatGemini.canned = None ->
      forall r,
        ChatGemini.handler SYSTEM_PROMPT JSON_parse key mdl KB (post text0)
        = Respond r ->
        r = ok_envelope no_info "low" []
        /\ sources (ChatGemini.buildContext text0 KB
                      ChatGemini.default_maxChunks) = []
        \/ r = json_error 500 "Server not configured: set GEMINI_API_KEY."
           /\ env_set key = false).
Proof.
  intros Hq. split; [symmetry; apply canned_loop_none|].
  intros Hnone r. unfold ChatGemini.handler, post. cbn [method body_text].
  change (negb (String.eqb "POST" "POST")) with false. cbv iota.
  rewrite Hq, Hnone.
  destruct (sources (ChatGemini.buildContext text0 KB _)) eqn:S.
  - intros H. injection H as <-. left. split; reflexivity.
  - destruct (env_set key); cbn [negb]; [discriminate|].
    intros H. injection H as <-. right. split; reflexivity.
Qed.

Lemma canned_table_silent_witness :
  ChatGemini.canned_loop (objects (tl ChatGemini.inline_kb))
    (toLowerCase "who are you") ChatGemini.canned = None.
Proof.
  apply (proj1 (canned_table_silent Sample.SYSTEM_PROMPT Sample.parse
                  None None (tl ChatGemini.inline_kb) "who are you"
                  eq_refl)).
  intros re cid H. vm_compute in H.
  repeat (destruct H as [H|H];
          [injection H as <- <-; vm_compute; tauto|]).
  contradiction.
Defined.

(** X14.  The scored Gemini handler never answers 502: its responses have
    status 405, 400, 200 or 500, the last only for a missing key or a
    failed model call; a 200 always carries an envelope. *)
Theorem gemini_status_codes
  (SYSTEM_PROMPT : string) (JSON_parse : string -> option json)
  (key mdl : envvar) (KB : list snippet) (req : request) :
  all_responses
    (fun r =>
       In (status r) [200; 400; 405; 500]
       /\ (status r = 200 <-> exists a c s, payload r = Envelope a c s))
    (ChatGemini.handler SYSTEM_PROMPT JSON_parse key mdl KB req)
  /\ (method req <> "POST" ->
      ChatGemini.handler SYSTEM_PROMPT JSON_parse key mdl KB req
      = Respond (json_error 405 "Method not allowed"))
  /\ (method req = "POST" -> question (body_text req) = None ->
      ChatGemini.handler SYSTEM_PROMPT JSON_parse key mdl KB req
      = Respond (json_error 400 "No question text provided")).
Proof.
  assert (E200 : forall a c s,
            In (status (ok_envelope a c s)) [200; 400; 405; 500]
            /\ (status (ok_envelope a c s) = 200 <->
                exists a' c' s', payload (ok_envelope a c s)
                                 = Envelope a' c' s')).
  { intros a c s. split; [left; reflexivity|].
    split; intros _; [eexists _, _, _|]; reflexivity. }
  assert (Eerr : forall n m d,
            In n [400; 405; 500] ->
            In (status {| status := n; payload := ErrorBody m d |})
               [200; 400; 405; 500]
            /\ (status {| status := n; payload := ErrorBody m d |} = 200 <->
                exists a' c' s',
                  payload {| status := n; payload := ErrorBody m d |}
                  = Envelope a' c' s')).
  { intros n m d Hn. cbn [status payload]. split; [right; exact Hn|].
    split.
    - intros ->. cbn [In] in Hn. intuition discriminate.
    - intros [a' [c' [s' H]]]. discriminate. }
  split; [|split].
  - unfold ChatGemini.handler.
    destruct (negb (String.eqb (method req) "POST"));
      [apply Eerr; cbn [In]; tauto|].
    destruct (question (body_text req)) as [text0|];
      [|apply Eerr; cbn [In]; tauto].
    destruct (ChatGemini.canned_loop _ _ _) as [r|] eqn:C.
    { apply canned_loop_shape in C.
      destruct C as [re [cid [hit [_ [_ [_ ->]]]]]]. apply E200. }
    destruct (sources (ChatGemini.buildContext text0 KB _)); [apply E200|].
    destruct (negb (env_set key)); [apply Eerr; cbn [In]; tauto|].
    intros [e|g]; cbn [ChatGemini.finish].
    + apply Eerr. cbn [In]. tauto.
    + destruct (parse_generated_200 JSON_parse g) as [a [c [srcs ->]]].
      apply E200.
  - intros H. unfold ChatGemini.handler.
    apply String.eqb_neq in H. rewrite H. reflexivity.
  - intros Hm H. unfold ChatGemini.handler. rewrite Hm, H. reflexivity.
Qed.

Lemma gemini_status_codes_witness :
  ChatGemini.handler Sample.SYSTEM_PROMPT Sample.parse None None
    ChatGemini.inline_kb {| method := "PUT"; body_text := None |}
  = Respond (json_error 405 "Method not allowed").
Proof.
  apply (proj1 (proj2 (gemini_status_codes Sample.SYSTEM_PROMPT Sample.parse
                         None None ChatGemini.inline_kb
                         {| method := "PUT"; body_text := None |}))).
  discriminate.
Defined.

(** ** Loading the knowledge base *)

Section LoaderFacts.

Variable JSON_parse : string -> option json.
Variable inline : list snippet.

(** With no call in flight and a truthy cache nothing changes any more. *)
Lemma run_settled (st : Loader.state) (events : list Loader.event) :
  Loader.in_flight st = 0 ->
  truthy (Some (Loader.KB_CACHE st)) = true ->
  (forall v, In v (fst (Loader.run JSON_parse inline st events)) ->
             v = Loader.KB_CACHE st)
  /\ snd (Loader.run JSON_parse inline st events) = st.
Proof.
  intros Hf Ht. induction events as [|e events [IHv IHs]];
    [split; [intros ? [] | reflexivity]|].
  cbn [Loader.run]. destruct e as [|file]; cbn [Loader.step].
  - rewrite Ht.
    destruct (Loader.run JSON_parse inline st events) as [rs final].
    cbn [fst snd] in *. split; [|exact IHs].
    intros v [<-|Hv]; [reflexivity | exact (IHv v Hv)].
  - rewrite Hf.
    destruct (Loader.run JSON_parse inline st events) as [rs final].
    cbn [fst snd] in *. split; assumption.
Qed.

End LoaderFacts.

(** X15.  When no call of [loadKB] is in flight and the cache holds a
    truthy value, every later call returns that value and the cache is
    never assigned again, whatever the file then holds.  A lone call on
    the empty cache whose read or parse fails returns the inline fallback
    and leaves it in the cache, where it stays for all later calls.  A
    call that is still in flight assigns the cache when its read settles:
    two overlapping calls on the empty cache each return their own result
    and the one that settles last stays in the cache. *)
Theorem loadKB_cache_profile
  (JSON_parse : string -> option json) (inline : list snippet) :
  (forall st events,
     Loader.in_flight st = 0 ->
     truthy (Some (Loader.KB_CACHE st)) = true ->
     (forall v, In v (fst (Loader.run JSON_parse inline st events)) ->
                v = Loader.KB_CACHE st)
     /\ snd (Loader.run JSON_parse inline st events) = st)
  /\ (forall file later,
        file = None
        \/ (exists raw, file = Some raw /\ JSON_parse raw = None) ->
        forall v,
          In v (fst (Loader.run JSON_parse inline Loader.initial
                       (Loader.Call :: Loader.ReadSettled file :: later))) ->
          v = Loader.inline_json inline)
  /\ (forall f1 f2,
        Loader.run JSON_parse inline Loader.initial
          [Loader.Call; Loader.Call;
           Loader.ReadSettled f1; Loader.ReadSettled f2]
        = ([Loader.loaded JSON_parse inline f1;
            Loader.loaded JSON_parse inline f2],
           {| Loader.KB_CACHE := Loader.loaded JSON_parse inline f2;
              Loader.in_flight := 0 |})).
Proof.
  split; [apply run_settled|]. split; [|reflexivity].
  intros file later Hfail v.
  assert (E : Loader.loaded JSON_parse inline file
              = Loader.inline_json inline)
    by (destruct Hfail as [-> | [raw [-> H]]]; cbn [Loader.loaded];
        [|rewrite H]; reflexivity).
  cbn [Loader.run Loader.step Loader.initial Loader.KB_CACHE
       Loader.in_flight truthy].
  rewrite E.
  pose proof (run_settled JSON_parse inline
                {| Loader.KB_CACHE := Loader.inline_json inline;
                   Loader.in_flight := 0 |} later eq_refl eq_refl)
    as [Hv _].
  destruct (Loader.run JSON_parse inline _ later) as [rs final].
  cbn [fst snd] in *. intros [<-|H]; [reflexivity | exact (Hv v H)].
Qed.

Lemma loadKB_cache_profile_witness :
  Forall (eq (Loader.inline_json ChatHF.inline_kb))
    (fst (Loader.run Sample.parse ChatHF.inline_kb Loader.initial
            [Loader.Call; Loader.ReadSettled None; Loader.Call;
             Loader.ReadSettled (Some Sample.text_high_life);
             Loader.Call])).
Proof.
  apply Forall_forall. intros v Hv. symmetry. revert v Hv.
  apply (proj1 (proj2 (loadKB_cache_profile Sample.parse
                         ChatHF.inline_kb))).
  left. reflexivity.
Defined.

(** ** Query normalisation in the browser *)

Section NormFacts.

Lemma plain_fixed (c : ascii) :
  is_plain c = true ->
  lower_char c = c
  /\ is_word c || is_space c = true
  /\ (is_space c = true -> c = " "%char).
Proof.
  destruct c as [[] [] [] [] [] [] [] []]; vm_compute;
    intros H; try discriminate H; repeat split; intros H'; discriminate H'.
Qed.

Lemma lower_word_plain (c : ascii) :
  implb (is_word c) (is_lower_word c) = true ->
  is_word c || is_space c = true ->
  is_space c = false -> is_plain c = true.
Proof.
  destruct c as [[] [] [] [] [] [] [] []]; vm_compute; intros H1 H2 H3;
    first [reflexivity | discriminate H1 | discriminate H2
          | discriminate H3].
Qed.

Lemma blank_punctuation_chars (s : string) :
  all_chars (fun c => implb (is_word c) (is_lower_word c)) s = true ->
  all_chars (fun c => is_plain c || is_space c) (App.blank_punctuation s)
  = true.
Proof.
  induction s as [|c s IH]; [reflexivity|].
  cbn [all_chars App.blank_punctuation]. intros H.
  apply andb_true_iff in H. destruct H as [Hc Hs].
  rewrite (IH Hs), andb_true_r.
  destruct (is_space c) eqn:S.
  - rewrite orb_true_r, S. apply orb_true_r.
  - destruct (is_word c) eqn:W; cbn [orb]; [|reflexivity].
    rewrite lower_word_plain;
      [reflexivity | rewrite W; exact Hc | rewrite W; reflexivity | exact S].
Qed.

Lemma collapse_from_shape (s : string) :
  all_chars (fun c => is_plain c || is_space c) s = true ->
  forall b,
    all_chars is_plain (App.collapse_from b s) = true
    /\ no_pair " " " " (App.collapse_from b s) = true
    /\ (b = true -> starts " " (App.collapse_from b s) = false).
Proof.
  induction s as [|c s IH]; intros H b; [repeat split|].
  cbn [all_chars] in H. apply andb_true_iff in H. destruct H as [Hc Hs].
  cbn [App.collapse_from]. destruct (is_space c) eqn:S.
  - destruct (IH Hs true) as [A [N F]]. destruct b.
    + repeat split; assumption.
    + rewrite no_pair_cons, N, (F eq_refl). cbn [all_chars].
      rewrite A. repeat split. discriminate.
  - destruct (IH Hs false) as [A [N _]].
    rewrite orb_false_r in Hc.
    rewrite no_pair_cons, N. cbn [all_chars starts]. rewrite Hc, A.
    assert (Hsp : Ascii.eqb c " " = false).
    { apply Ascii.eqb_neq. intros ->. discriminate S. }
    rewrite Hsp. repeat split.
Qed.

Lemma toLowerCase_plain (s : string) :
  all_chars is_plain s = true -> toLowerCase s = s.
Proof.
  induction s as [|c s IH]; [reflexivity|]. cbn [all_chars toLowerCase].
  intros H. apply andb_true_iff in H. destruct H as [Hc Hs].
  rewrite (IH Hs), (proj1 (plain_fixed c Hc)). reflexivity.
Qed.

Lemma blank_punctuation_plain (s : string) :
  all_chars is_plain s = true -> App.blank_punctuation s = s.
Proof.
  induction s as [|c s IH]; [reflexivity|].
  cbn [all_chars App.blank_punctuation].
  intros H. apply andb_true_iff in H. destruct H as [Hc Hs].
  rewrite (IH Hs), (proj1 (proj2 (plain_fixed c Hc))). reflexivity.
Qed.

Lemma collapse_from_plain (s : string) :
  all_chars is_plain s = true ->
  no_pair " " " " s = true ->
  forall b, (b = true -> starts " " s = false) ->
  App.collapse_from b s = s.
Proof.
  induction s as [|c s IH]; intros H N b Hb; [reflexivity|].
  cbn [all_chars] in H. apply andb_true_iff in H. destruct H as [Hc Hs].
  rewrite no_pair_cons in N. apply andb_true_iff in N. destruct N as [N1 N2].
  cbn [App.collapse_from]. destruct (is_space c) eqn:S.
  - pose proof (proj2 (proj2 (plain_fixed c Hc)) S) as ->.
    destruct b; [specialize (Hb eq_refl); discriminate Hb|].
    f_equal. apply IH; [exact Hs | exact N2|].
    intros _. cbn [Ascii.eqb] in N1.
    destruct (starts " " s); [discriminate N1 | reflexivity].
  - f_equal. apply IH; [exact Hs | exact N2 | discriminate].
Qed.

Lemma norm_shape (s : string) :
  all_chars is_plain (App.norm s) = true
  /\ no_pair " " " " (App.norm s) = true.
Proof.
  unfold App.norm, trim.
  destruct (collapse_from_shape _
              (blank_punctuation_chars _ (toLowerCase_chars s)) false)
    as [A [N _]].
  split.
  - apply trimEnd_all_chars, trimStart_all_chars, A.
  - apply trimEnd_no_pair, trimStart_no_pair, N.
Qed.

End NormFacts.

(** X16.  The query normalisation of the browser is idempotent; its
    result holds lowercase letters, digits, underscores and single spaces
    only, with no space at either end. *)
Theorem norm_idempotent (s : string) :
  App.norm (App.norm s) = App.norm s
  /\ all_chars is_plain (App.norm s) = true
  /\ no_pair " " " " (App.norm s) = true
  /\ trim (App.norm s) = App.norm s.
Proof.
  destruct (norm_shape s) as [A N].
  assert (T : trim (App.norm s) = App.norm s)
    by (unfold App.norm; apply trim_idempotent).
  split; [|repeat split; assumption].
  unfold App.norm at 1.
  rewrite (toLowerCase_plain _ A), (blank_punctuation_plain _ A).
  rewrite (collapse_from_plain _ A N false); [exact T | discriminate].
Qed.

(** ** Canned answers of api/chat.js *)

Section CannedTextFacts.

Lemma nonempty_text_of_text (o : option obj) :
  nonempty (text_of o) = true ->
  exists k, o = Some k /\ text_of o = Some (text (snip k))
            /\ is_empty (text (snip k)) = false.
Proof.
  destruct o as [k|]; [|discriminate]. cbn [text_of option_map nonempty].
  intros H. apply negb_true_iff in H. eauto.
Qed.

End CannedTextFacts.

(** X17.  A canned answer of api/chat.js is never the empty string: an
    entry whose snippet has an empty text is passed over like an absent
    one. *)
Theorem hf_canned_answer_nonempty
  (KB : list snippet) (q : string) (r : response) :
  ChatHF.canned KB q = Some r ->
  exists t cid,
    r = ok_envelope t "high" [JStr cid] /\ is_empty t = false.
Proof.
  unfold ChatHF.canned.
  repeat match goal with
  | |- (if nonempty (text_of (find_id ?c ?K)) && ?t then _ else _) = _ -> _ =>
      let E := fresh "E" in
      destruct (nonempty (text_of (find_id c K)) && t) eqn:E;
      [ apply andb_true_iff in E; destruct E as [E _];
        apply nonempty_text_of_text in E; destruct E as [k [_ [Et Ht]]];
        rewrite Et; intros H; injection H as <-;
        exists (text (snip k)), c; split; [reflexivity | exact Ht]
      | ]
  end.
  destruct (nonempty (text_of (find_id "KB_PERSONAL" (objects KB)))) eqn:P1;
    cbv iota.
  - rewrite P1. cbn [andb].
    match goal with |- (if ?b then _ else _) = _ -> _ => destruct b end;
      [|discriminate].
    apply nonempty_text_of_text in P1. destruct P1 as [k [_ [Et Ht]]].
    rewrite Et. intros H. injection H as <-.
    exists (text (snip k)), "KB_PERSONAL". split; [reflexivity | exact Ht].
  - destruct (nonempty (text_of (find_id "KB_PERSONAL2" (objects KB))))
      eqn:P2; cbn [andb]; cbv iota; [|discriminate].
    match goal with |- (if ?b then _ else _) = _ -> _ => destruct b end;
      [|discriminate].
    apply nonempty_text_of_text in P2. destruct P2 as [k [_ [Et Ht]]].
    rewrite Et. intros H. injection H as <-.
    exists (text (snip k)), "KB_PERSONAL". split; [reflexivity | exact Ht].
Qed.

Lemma hf_canned_answer_nonempty_witness :
  exists t cid,
    ok_envelope
      "I am a fourth-year engineering student from Bengaluru who blends design and code."
      "high" [JStr "KB_LIFE"]
    = ok_envelope t "high" [JStr cid]
    /\ is_empty t = false.
Proof.
  exact (hf_canned_answer_nonempty ChatHF.inline_kb "who are you" _ eq_refl).
Defined.

(** The canned table of the scored handler has no such guard: a snippet
    with an empty text is answered as it is. *)
Lemma gemini_canned_answer_may_be_empty :
  ChatGemini.handler Sample.SYSTEM_PROMPT Sample.parse None None
    [ {| id := "KB_LIFE"; text := EmptyString |} ] (post "who are you")
  = Respond (ok_envelope EmptyString "high" [JStr "KB_LIFE"]).
Proof. reflexivity. Qed.

(** ** Cleaning of ordinary text *)

(** X18.  A text that holds no code fence, no brace, no ["answer":] label,
    no [Confidence: low] fragment and no backslash followed by n is only
    trimmed by the cleaning: it is spoken as written. *)
Theorem clean_plain_text (s : string) :
  includes s Tts.pat_fence = false ->
  includes s Tts.pat_open = false ->
  includes s Tts.pat_close = false ->
  includes s Tts.pat_answer = false ->
  includes s Tts.pat_confidence = false ->
  includes s Tts.pat_backslash_n = false ->
  Tts.clean s = trim s.
Proof.
  intros Hf Ho Hc Ha Hl Hn.
  assert (Hj : includes s Tts.pat_fence_json = false)
    by (apply (includes_app_absent Tts.pat_fence "json"), Hf).
  unfold Tts.clean, replaceAll.
  rewrite (replace_from_absent _ _ _ Hj), (replace_from_absent _ _ _ Hf),
    (replace_from_absent _ _ _ Ho), (replace_from_absent _ _ _ Hc),
    (replace_from_absent _ _ _ Ha), (replace_from_absent _ _ _ Hl),
    (replace_from_absent _ _ _ Hn).
  reflexivity.
Qed.

Lemma clean_plain_text_witness :
  Tts.clean "  I blend design and code.  " = trim "  I blend design and code.  ".
Proof. apply clean_plain_text; reflexivity. Defined.
